(** * traceback: a frame-pointer stack walker with typed argument printing

    A shallow embedding of the two revisions of [traceback.c] that the
    repository carries:

    - [Probe]     : [src/traceback/traceback.c], the side-effect-probe
                    revision, where [isvalid] asks [write(2)] whether a byte
                    is readable;
    - [Intercept] : the fault-interception revision, where a [SIGSEGV]
                    handler [siglongjmp]s to the last [sigsetjmp].

    The header [traceback_internal.h] is not part of the sources at hand; its
    constants and the symbol table are fields of [world]. *)

From Stdlib Require Import ZArith List String Ascii Bool Lia.
Import ListNotations.
Local Open Scope Z_scope.

(** ** Machine integers: 32-bit, two's complement, little endian *)

Definition wrap (x : Z) : Z := x mod 2 ^ 32.

Definition sint (x : Z) : Z :=
  let u := x mod 2 ^ 32 in if u <? 2 ^ 31 then u else u - 2 ^ 32.

(** The value of a [char] (signed on the target) held in one byte. *)
Definition schar (b : Z) : Z :=
  let u := b mod 256 in if u <? 128 then u else u - 256.

(** ** What [fprintf] writes for the conversions the code uses *)

Definition digit (d : Z) : ascii :=
  if d <? 10 then ascii_of_N (Z.to_N (48 + d)) else ascii_of_N (Z.to_N (87 + d)).

Fixpoint digits (base : Z) (fuel : nat) (n : Z) (acc : string) : string :=
  match fuel with
  | O => acc
  | S fuel' =>
      let acc' := String (digit (n mod base)) acc in
      if n <? base then acc' else digits base fuel' (n / base) acc'
  end.

(** [%x] *)
Definition fmt_x (v : Z) : string := digits 16 32 (wrap v) "".

(** [%#x]: the prefix is omitted for zero *)
Definition fmt_alt_x (v : Z) : string :=
  if wrap v =? 0 then "0"%string else ("0x" ++ fmt_x v)%string.

(** [%o] *)
Definition fmt_o (v : Z) : string := digits 8 32 (wrap v) "".

(** [%d] *)
Definition fmt_d (v : Z) : string :=
  let i := sint v in
  if i <? 0 then ("-" ++ digits 10 32 (- i) "")%string else digits 10 32 i "".

(** [%c] *)
Definition fmt_c (v : Z) : string :=
  String (ascii_of_N (Z.to_N (v mod 256))) "".

Definition dquote : string := String (ascii_of_nat 34) "".
Definition newline : string := String (ascii_of_nat 10) "".

(** [isprint] in the C locale *)
Definition isprint (c : Z) : bool := (32 <=? c) && (c <=? 126).

(** ** The symbol table ([traceback_internal.h]) *)

(** Modelled from the spec: the type tags of [traceback_internal.h], which
    the sources use as [TYPE_CHAR] ... [TYPE_VOIDSTAR]; the data model lists
    CHAR, INT, FLOAT, DOUBLE, STRING, STRING_ARRAY, OPAQUE_POINTER and
    UNKNOWN.  [TYPE_UNKNOWN] stands for every tag the [switch] of
    [print_arguments] sends to [default]. *)
Inductive argtype : Type :=
| TYPE_CHAR | TYPE_INT | TYPE_FLOAT | TYPE_DOUBLE
| TYPE_STRING | TYPE_STRING_ARRAY | TYPE_VOIDSTAR | TYPE_UNKNOWN.

(** Modelled from the spec: [argsym_t] of [traceback_internal.h], an
    ArgumentDescriptor with the fields the sources read ([type], [offset],
    [name]). *)
Record argsym_t : Type := {
  type : argtype;
  offset : Z;
  arg_name : string
}.

(** Modelled from the spec: [functsym_t] of [traceback_internal.h], a
    FunctionDescriptor with the fields the sources read ([addr], [name],
    [args]). *)
Record functsym_t : Type := {
  addr : Z;
  name : string;
  args : list argsym_t
}.

(** A zero-filled slot: what the unused tail of a static array holds. *)
Definition null_arg : argsym_t := {| type := TYPE_CHAR; offset := 0; arg_name := "" |}.
Definition null_funct : functsym_t := {| addr := 0; name := ""; args := [] |}.

(** [strlen(s) != 0] *)
Definition nonempty (s : string) : bool :=
  match s with EmptyString => false | String _ _ => true end.

(** ** The process the traceback runs in *)

Record world : Type := {
  (* traceback_internal.h *)
  FUNCTS_MAX_NUM : Z;
  ARGS_MAX_NUM : Z;
  MAX_FUNCTION_SIZE_BYTES : Z;
  functions : list functsym_t;
  (* what a read of [functions[i]] yields for [i] outside the array *)
  beyond : Z -> functsym_t;
  (* byte-addressed memory; [None] is an unmapped address *)
  mem : Z -> option Z;
  (* the value trace_init_ebp.S hands back *)
  trace_init_ebp : Z;
  (* results of the system calls made while setting up *)
  open_ret : Z;
  sigaction_ret : Z;
  sigprocmask_ret : Z;
  (* libc's rendering of [%f] and [%lf], from the raw bits *)
  printf_f : Z -> string;
  printf_lf : Z -> string
}.

(** [functions[i]] *)
Definition funct_at (w : world) (i : Z) : functsym_t :=
  if (0 <=? i) && (i <? FUNCTS_MAX_NUM w)
  then nth (Z.to_nat i) (functions w) null_funct
  else beyond w i.

Definition in_bounds (w : world) (i : Z) : bool :=
  (0 <=? i) && (i <? FUNCTS_MAX_NUM w).

(** [function.args[i]] *)
Definition arg_at (f : functsym_t) (i : Z) : argsym_t :=
  nth (Z.to_nat i) (args f) null_arg.

(** ** State threaded through a run, and the outcome of a computation *)

(** Where [jump_to] points: the [sigsetjmp] call that filled it last. *)
Inductive checkpoint : Type :=
| J_unset | J_traceback | J_print_string_array | J_is_string_print.

Definition checkpoint_eqb (a b : checkpoint) : bool :=
  match a, b with
  | J_unset, J_unset | J_traceback, J_traceback
  | J_print_string_array, J_print_string_array
  | J_is_string_print, J_is_string_print => true
  | _, _ => false
  end.

Record state : Type := {
  out : string;          (* what has been written to [fp] *)
  err : string;          (* what has been written to [stderr] *)
  reads : list Z;        (* addresses the program loaded from, latest first *)
  tbl : list Z;          (* indices [functions] was read at, latest first *)
  fd : Z;                (* global [fd] of the probe revision *)
  jump_to : checkpoint   (* global [jump_to] of the interception revision *)
}.

Definition initial : state :=
  {| out := ""; err := ""; reads := []; tbl := []; fd := 0; jump_to := J_unset |}.

Inductive result (A : Type) : Type :=
| Done (a : A) (s : state)   (* ran to completion *)
| Fault (s : state)          (* an unmapped address was loaded: SIGSEGV *)
| Exited (s : state)         (* [exit(-1)] *)
| OutOfFuel.                 (* the model's loop bound was hit *)

Arguments Done {A} a s.
Arguments Fault {A} s.
Arguments Exited {A} s.
Arguments OutOfFuel {A}.

Definition M (A : Type) : Type := state -> result A.

Definition ret {A} (a : A) : M A := fun s => Done a s.

Definition bind {A B} (m : M A) (f : A -> M B) : M B :=
  fun s =>
    match m s with
    | Done a s' => f a s'
    | Fault s' => Fault s'
    | Exited s' => Exited s'
    | OutOfFuel => OutOfFuel
    end.

Notation "x <- m ;; k" := (bind m (fun x => k))
  (at level 61, m at next level, right associativity).
Notation "m ;;; k" := (bind m (fun _ => k))
  (at level 61, right associativity).

Definition write_out (text : string) (s : state) : state :=
  {| out := (out s ++ text)%string; err := err s; reads := reads s;
     tbl := tbl s; fd := fd s; jump_to := jump_to s |}.

Definition fprintf (text : string) : M unit :=
  fun s => Done tt (write_out text s).

Definition fprintf_stderr (text : string) : M unit :=
  fun s => Done tt {| out := out s; err := (err s ++ text)%string; reads := reads s;
                      tbl := tbl s; fd := fd s; jump_to := jump_to s |}.

Definition log_read (a : Z) (s : state) : state :=
  {| out := out s; err := err s; reads := a :: reads s;
     tbl := tbl s; fd := fd s; jump_to := jump_to s |}.

Definition log_tbl (l : list Z) (s : state) : state :=
  {| out := out s; err := err s; reads := reads s;
     tbl := (rev l ++ tbl s)%list; fd := fd s; jump_to := jump_to s |}.

Definition set_fd (v : Z) : M unit :=
  fun s => Done tt {| out := out s; err := err s; reads := reads s;
                      tbl := tbl s; fd := v; jump_to := jump_to s |}.

Definition set_jump (c : checkpoint) (s : state) : state :=
  {| out := out s; err := err s; reads := reads s;
     tbl := tbl s; fd := fd s; jump_to := c |}.

Definition exit_process {A} : M A := fun s => Exited s.
Definition out_of_fuel {A} : M A := fun _ => OutOfFuel.

(** *** Loads *)

Definition byte_at (w : world) (a : Z) : option Z :=
  option_map (fun b => b mod 256) (mem w (wrap a)).

Definition word_at (w : world) (a : Z) : option Z :=
  match byte_at w a, byte_at w (a + 1), byte_at w (a + 2), byte_at w (a + 3) with
  | Some b0, Some b1, Some b2, Some b3 =>
      Some (b0 + 2 ^ 8 * b1 + 2 ^ 16 * b2 + 2 ^ 24 * b3)
  | _, _, _, _ => None
  end.

(** [*(char * )a], as the unsigned byte *)
Definition load8 (w : world) (a : Z) : M Z :=
  fun s =>
    match byte_at w a with
    | Some b => Done b (log_read (wrap a) s)
    | None => Fault (log_read (wrap a) s)
    end.

(** [*(int * )a], as the unsigned word *)
Definition load32 (w : world) (a : Z) : M Z :=
  fun s =>
    match word_at w a with
    | Some v => Done v (log_read (wrap a) s)
    | None => Fault (log_read (wrap a) s)
    end.

(** [*(double * )a], as the raw 64 bits *)
Definition load64 (w : world) (a : Z) : M Z :=
  lo <- load32 w a ;;
  hi <- load32 w (a + 4) ;;
  ret (lo + 2 ^ 32 * hi).

(** A table access made by a pure helper, recorded in the state. *)
Definition with_tbl {A} (r : A * list Z) : M A :=
  fun s => Done (fst r) (log_tbl (snd r) s).

(** *** [sigsetjmp] / [siglongjmp]

    [sigsetjmp c direct resumed]: fill [jump_to] with [c] and run [direct],
    the code after a return of 0.  A fault raised while [jump_to] still holds
    [c] comes back here and runs [resumed], the code after a return of 1.  A
    fault raised under another checkpoint is not this call's to take: it
    belongs to a [sigsetjmp] made further in, and if that one's function has
    already returned the fault leaves every enclosing call unanswered. *)
Definition resume {A} (c : checkpoint) (resumed : M A) (r : result A) : result A :=
  match r with
  | Fault s' => if checkpoint_eqb (jump_to s') c then resumed s' else Fault s'
  | Done a s' => Done a s'
  | Exited s' => Exited s'
  | OutOfFuel => OutOfFuel
  end.

Definition sigsetjmp {A} (c : checkpoint) (direct resumed : M A) : M A :=
  fun s => resume c resumed (direct (set_jump c s)).

Definition MAX_STRING_LEN : Z := 25.
Definition MAX_ARRAY_LEN : Z := 3.

(** ** [print_arguments], the same text in both revisions *)

Section PrintArguments.

Variable w : world.
Variable print_string : Z -> M unit.
Variable print_string_array : Z -> M unit.

(** One turn of the [switch (arg.type)]. *)
Definition print_argument (arg : argsym_t) (ebp : Z) : M unit :=
  (* arg_val = (int * )(ebp + arg.offset / int_size) *)
  let arg_val := wrap (ebp + 4 * Z.quot (offset arg) 4) in
  match type arg with
  | TYPE_CHAR =>
      b <- load8 w arg_val ;;
      if isprint (schar b)
      then fprintf ("char " ++ arg_name arg ++ "='" ++ fmt_c b ++ "'")
      else fprintf ("char " ++ arg_name arg ++ "='\" ++ fmt_o (schar b) ++ "'")
  | TYPE_INT =>
      v <- load32 w arg_val ;;
      fprintf ("int " ++ arg_name arg ++ "=" ++ fmt_d v)
  | TYPE_FLOAT =>
      v <- load32 w arg_val ;;
      fprintf ("float " ++ arg_name arg ++ "=" ++ printf_f w v)
  | TYPE_DOUBLE =>
      v <- load64 w arg_val ;;
      fprintf ("double " ++ arg_name arg ++ "=" ++ printf_lf w v)
  | TYPE_STRING =>
      fprintf ("char *" ++ arg_name arg ++ "=") ;;;
      v <- load32 w arg_val ;;
      print_string v
  | TYPE_STRING_ARRAY =>
      fprintf ("char **" ++ arg_name arg ++ "=") ;;;
      v <- load32 w arg_val ;;
      print_string_array v
  | TYPE_VOIDSTAR =>
      v <- load32 w arg_val ;;
      fprintf ("void *" ++ arg_name arg ++ "=0v" ++ fmt_x v)
  | TYPE_UNKNOWN =>
      fprintf ("UNKNOWN " ++ arg_name arg ++ "=" ++ fmt_alt_x arg_val)
  end.

(** [while (++index < ARGS_MAX_NUM && strlen(function.args[index].name) != 0)];
    [n] counts the indices still below [ARGS_MAX_NUM]; the value is [index]
    at loop exit. *)
Fixpoint print_arguments_loop (n : nat) (index : Z)
         (function : functsym_t) (ebp : Z) : M Z :=
  match n with
  | O => ret index
  | S n' =>
      let arg := arg_at function index in
      if nonempty (arg_name arg) then
        (if 0 <? index then fprintf ", " else ret tt) ;;;
        print_argument arg ebp ;;;
        print_arguments_loop n' (index + 1) function ebp
      else ret index
  end.

Definition print_arguments (function : functsym_t) (ebp : Z) : M unit :=
  index <- print_arguments_loop (Z.to_nat (ARGS_MAX_NUM w)) 0 function ebp ;;
  if index =? 0 then fprintf "void" else ret tt.

End PrintArguments.

(** ** The loops of [print_string] and [print_string_array], the same text
    in both revisions *)

(** [for (i = 0; i < length && i < MAX_STRING_LEN; i++) fprintf(fp, "%c", arg_val[i]);]
    [n] counts the indices still below [MAX_STRING_LEN]; the value is [i] at
    loop exit. *)
Fixpoint print_chars (w : world) (n : nat) (i : Z) (arg_val length : Z) : M Z :=
  match n with
  | O => ret i
  | S n' =>
      if i <? length then
        c <- load8 w (arg_val + i) ;;
        fprintf (fmt_c c) ;;;
        print_chars w n' (i + 1) arg_val length
      else ret i
  end.

(** [while (arg_val[i] && i < MAX_ARRAY_LEN)]: the element is loaded before
    [i] is compared; [n] counts the indices still below [MAX_ARRAY_LEN]; the
    value is [i] at loop exit. *)
Fixpoint print_string_array_loop (w : world) (print_string : Z -> M unit)
         (n : nat) (i : Z) (arg_val : Z) : M Z :=
  match n with
  | O => _ <- load32 w (arg_val + 4 * i) ;; ret i
  | S n' =>
      p <- load32 w (arg_val + 4 * i) ;;
      if p =? 0 then ret i else
      (if 0 <? i then fprintf ", " else ret tt) ;;;
      print_string p ;;;
      print_string_array_loop w print_string n' (i + 1) arg_val
  end.

(** ** [src/traceback/traceback.c]: the side-effect-probe revision *)

Module Probe.

(** [get_index]: the loop
    [while (++index < FUNCTS_MAX_NUM && strlen(functions[index].name) != 0)].
    [n] counts the indices still below [FUNCTS_MAX_NUM]; the value is
    [(index, find)] at loop exit together with the indices read. *)
Fixpoint get_index_loop (w : world) (n : nat) (index : Z) (return_address : Z)
         (seen : list Z) : Z * bool * list Z :=
  match n with
  | O => (index, false, seen)
  | S n' =>
      let seen' := (seen ++ [index])%list in
      if nonempty (name (funct_at w index)) then
        if sint (addr (funct_at w index)) >? return_address
        then (index, true, seen')
        else get_index_loop w n' (index + 1) return_address seen'
      else (index, false, seen')
  end.

Definition get_index (w : world) (return_address : Z) : Z * list Z :=
  let '(index, find, seen) :=
    get_index_loop w (Z.to_nat (FUNCTS_MAX_NUM w)) 0 return_address [] in
  (if find then index - 1 else -1, seen).

(** [is_main]: [||] reads [functions[exit_index]] first and
    [functions[cur_index]] only when the first test fails. *)
Definition is_main (w : world) (cur_index exit_index : Z) : bool * list Z :=
  if String.eqb (name (funct_at w exit_index)) "exit"
  then (true, [exit_index])
  else (String.eqb (name (funct_at w cur_index)) "_start", [exit_index; cur_index]).

(** [write(fd, address, 1)]: refused for a bad descriptor, and for a byte
    the kernel cannot read. *)
Definition sys_write (w : world) (fildes : Z) (address : Z) : Z :=
  if fildes <? 0 then -1
  else match byte_at w address with Some _ => 1 | None => -1 end.

Definition isvalid (w : world) (address : Z) : M bool :=
  fun s => Done (negb (sys_write w (fd s) address <? 0)) s.

(** [is_string_print]: [Some len] stands for a return of 1 with
    [*length = len], [None] for a return of 0. *)
Fixpoint is_string_print_loop (w : world) (fuel : nat) (arg_val len : Z)
  : M (option Z) :=
  match fuel with
  | O => out_of_fuel
  | S fuel' =>
      ok <- isvalid w (arg_val + len) ;;
      if negb ok then ret None else
      c <- load8 w (arg_val + len) ;;
      if c =? 0 then ret (Some len)
      else if negb (isprint (schar c)) then ret None
      else is_string_print_loop w fuel' arg_val (sint (len + 1))
  end.

Definition is_string_print (w : world) (fuel : nat) (arg_val : Z) : M (option Z) :=
  if arg_val =? 0 then ret None
  else is_string_print_loop w fuel arg_val 0.

Definition print_string (w : world) (fuel : nat) (arg_val : Z) : M unit :=
  r <- is_string_print w fuel arg_val ;;
  match r with
  | Some length =>
      fprintf dquote ;;;
      i <- print_chars w (Z.to_nat MAX_STRING_LEN) 0 arg_val length ;;
      (if (i >=? MAX_STRING_LEN) && (i <? length) then fprintf "..." else ret tt) ;;;
      fprintf dquote
  | None => fprintf (fmt_alt_x arg_val)
  end.

Definition print_string_array (w : world) (fuel : nat) (arg_val : Z) : M unit :=
  if arg_val =? 0 then fprintf "0x0" else
  fprintf "{" ;;;
  i <- print_string_array_loop w (print_string w fuel) (Z.to_nat MAX_ARRAY_LEN) 0 arg_val ;;
  p <- load32 w (arg_val + 4 * i) ;;
  (if negb (p =? 0) && (i >=? MAX_ARRAY_LEN) then fprintf ", ..." else ret tt) ;;;
  fprintf "}".

Definition print_arguments (w : world) (fuel : nat) :=
  print_arguments w (print_string w fuel) (print_string_array w fuel).

(** The [while (1)] of [traceback]; [steps] bounds its turns. *)
Fixpoint traceback_loop (w : world) (fuel : nat) (steps : nat) (ebp : Z) : M unit :=
  match steps with
  | O => out_of_fuel
  | S steps' =>
      old_ebp <- load32 w ebp ;;
      ra <- load32 w (ebp + 4) ;;
      let return_address := sint ra in
      if ebp >=? old_ebp then fprintf ("FATAL: Stack Wrong!" ++ newline) else
      index <- with_tbl (get_index w return_address) ;;
      if index <? 0 then
        fprintf ("Function 0x" ++ fmt_x return_address ++ "(...), in" ++ newline) ;;;
        traceback_loop w fuel steps' old_ebp
      else
        curr_function <- with_tbl (funct_at w index, [index]) ;;
        operand <- load32 w (return_address + 4) ;;
        let exit_address := sint (return_address + sint operand + 8) in
        exit <- with_tbl (get_index w exit_address) ;;
        stop <- with_tbl (is_main w index exit) ;;
        if stop then ret tt else
        fprintf ("Function " ++ name curr_function ++ "(") ;;;
        print_arguments w fuel curr_function old_ebp ;;;
        fprintf ("), in" ++ newline) ;;;
        traceback_loop w fuel steps' old_ebp
  end.

(** [traceback]; [close] and [remove] leave the modelled state alone. *)
Definition traceback (w : world) (fuel steps : nat) : M unit :=
  set_fd (open_ret w) ;;;
  (if open_ret w <? 0 then fprintf_stderr "open random file failed" else ret tt) ;;;
  traceback_loop w fuel steps (wrap (trace_init_ebp w)).

End Probe.

(** ** The fault-interception revision *)

Module Intercept.

(** [get_index]: the value is [index] at loop exit with the indices read. *)
Fixpoint get_index_loop (w : world) (n : nat) (index : Z) (return_address : Z)
         (seen : list Z) : Z * list Z :=
  match n with
  | O => (index, seen)
  | S n' =>
      let seen' := (seen ++ [index])%list in
      if nonempty (name (funct_at w index)) then
        if sint (addr (funct_at w index)) >? return_address
        then (index, seen')
        else get_index_loop w n' (index + 1) return_address seen'
      else (index, seen')
  end.

Definition get_index (w : world) (return_address : Z) : Z * list Z :=
  let '(index, seen) :=
    get_index_loop w (Z.to_nat (FUNCTS_MAX_NUM w)) 0 return_address [] in
  (* [&&] evaluates [functions[index - 1]] only after [index >= 0] held *)
  if index >=? 0 then
    let seen' := (seen ++ [index - 1])%list in
    if sint (return_address - sint (addr (funct_at w (index - 1))))
       <? MAX_FUNCTION_SIZE_BYTES w
    then (index - 1, seen')
    else (-1, seen')
  else (-1, seen).

(** [is_string_print]: one [sigsetjmp] ahead of the scan, no probe. *)
Fixpoint is_string_print_loop (w : world) (fuel : nat) (arg_val len : Z)
  : M (option Z) :=
  match fuel with
  | O => out_of_fuel
  | S fuel' =>
      c <- load8 w (arg_val + len) ;;
      if c =? 0 then ret (Some len)
      else if negb (isprint (schar c)) then ret None
      else is_string_print_loop w fuel' arg_val (sint (len + 1))
  end.

Definition is_string_print (w : world) (fuel : nat) (arg_val : Z) : M (option Z) :=
  sigsetjmp J_is_string_print
    (if arg_val =? 0 then ret None else is_string_print_loop w fuel arg_val 0)
    (ret None).

Definition print_string (w : world) (fuel : nat) (arg_val : Z) : M unit :=
  r <- is_string_print w fuel arg_val ;;
  match r with
  | Some length =>
      fprintf dquote ;;;
      i <- print_chars w (Z.to_nat MAX_STRING_LEN) 0 arg_val length ;;
      (if (i >=? MAX_STRING_LEN) && (i <? length) then fprintf "..." else ret tt) ;;;
      fprintf dquote
  | None => fprintf ("0x" ++ fmt_x arg_val)
  end.

(** [for (i = 0; i < MAX_ARRAY_LEN; i++) if (!arg_val[i]) break;] *)
Fixpoint try_elements (w : world) (n : nat) (i : Z) (arg_val : Z) : M unit :=
  match n with
  | O => ret tt
  | S n' =>
      p <- load32 w (arg_val + 4 * i) ;;
      if p =? 0 then ret tt else try_elements w n' (i + 1) arg_val
  end.

Definition print_string_array (w : world) (fuel : nat) (arg_val : Z) : M unit :=
  sigsetjmp J_print_string_array
    (if arg_val =? 0 then fprintf "0x0" else
     try_elements w (Z.to_nat MAX_ARRAY_LEN) 0 arg_val ;;;
     fprintf "{" ;;;
     i <- print_string_array_loop w (print_string w fuel) (Z.to_nat MAX_ARRAY_LEN) 0 arg_val ;;
     p <- load32 w (arg_val + 4 * i) ;;
     (if negb (p =? 0) && (i >=? MAX_ARRAY_LEN) then fprintf ", ..." else ret tt) ;;;
     fprintf "}")
    (fprintf (fmt_alt_x arg_val)).

Definition print_arguments (w : world) (fuel : nat) :=
  print_arguments w (print_string w fuel) (print_string_array w fuel).

Definition SIGSEGV_handler_setup (w : world) : M unit :=
  if sigaction_ret w <? 0 then
    fprintf "Setting up handler failed: sigaction" ;;; exit_process
  else if sigprocmask_ret w <? 0 then
    fprintf "Setting up handler failed: sigprocmask" ;;; exit_process
  else ret tt.

(** The [while (1)] of [traceback]: every turn starts with
    [if (sigsetjmp(jump_to, 1) || !ebp) break;]. *)
Fixpoint traceback_loop (w : world) (fuel : nat) (steps : nat) (ebp : Z) : M unit :=
  match steps with
  | O => out_of_fuel
  | S steps' =>
      sigsetjmp J_traceback
        (if ebp =? 0 then ret tt else
         old_ebp <- load32 w ebp ;;
         ra <- load32 w (ebp + 4) ;;
         let return_address := sint ra in
         if negb (old_ebp =? 0) && (ebp >=? old_ebp)
         then fprintf ("FATAL: Stack Wrong!" ++ newline) else
         index <- with_tbl (get_index w return_address) ;;
         (if index <? 0 then
            fprintf ("Function 0x" ++ fmt_x return_address ++ "(...), in" ++ newline)
          else
            curr_function <- with_tbl (funct_at w index, [index]) ;;
            operand <- load32 w (return_address + 4) ;;
            let exit_address := sint (return_address + sint operand + 8) in
            _ <- with_tbl (get_index w exit_address) ;;
            fprintf ("Function " ++ name curr_function ++ "(") ;;;
            print_arguments w fuel curr_function old_ebp ;;;
            fprintf ("), in" ++ newline)) ;;;
         traceback_loop w fuel steps' old_ebp)
        (ret tt)
  end.

Definition traceback (w : world) (fuel steps : nat) : M unit :=
  SIGSEGV_handler_setup w ;;;
  traceback_loop w fuel steps (wrap (trace_init_ebp w)).

End Intercept.

(** ** Vocabulary of the statements *)

(** The outcome of a run, read off its last state. *)
Definition output {A} (r : result A) : option string :=
  match r with
  | Done _ s | Fault s | Exited s => Some (out s)
  | OutOfFuel => None
  end.

Definition halted {A} (r : result A) : bool :=
  match r with OutOfFuel => false | _ => true end.

Definition final {A} (r : result A) : state :=
  match r with
  | Done _ s | Fault s | Exited s => s
  | OutOfFuel => initial
  end.

(** [(int)functions[k].addr] *)
Definition start (w : world) (k : Z) : Z := sint (addr (funct_at w k)).

Definition is_int (a : Z) : Prop := - 2 ^ 31 <= a < 2 ^ 31.

(** The table holds [n] descriptors: named entries at [0 .. n-1], sorted by
    strictly ascending start address, followed (when the array is not full)
    by an entry with an empty name. *)
Record descriptors (w : world) (n : Z) : Prop := {
  d_count : 0 <= n <= FUNCTS_MAX_NUM w;
  d_named : forall i, 0 <= i < n -> nonempty (name (funct_at w i)) = true;
  d_sentinel : n < FUNCTS_MAX_NUM w -> nonempty (name (funct_at w n)) = false;
  d_sorted : forall i j, 0 <= i < j -> j < n -> start w i < start w j
}.

(** [a] lies in the range descriptor [k] covers: at or after its start and
    closer to it than the size bound. *)
Definition covered (w : world) (k a : Z) : Prop :=
  start w k <= a < start w k + MAX_FUNCTION_SIZE_BYTES w.

(** ** A small process to run the code on *)

Definition poke8 (a v : Z) (m : Z -> option Z) : Z -> option Z :=
  fun x => if x =? a then Some v else m x.

Definition poke32 (a v : Z) (m : Z -> option Z) : Z -> option Z :=
  poke8 a (v mod 256)
    (poke8 (a + 1) (v / 2 ^ 8 mod 256)
       (poke8 (a + 2) (v / 2 ^ 16 mod 256)
          (poke8 (a + 3) (v / 2 ^ 24 mod 256) m))).

(** A C string, terminator included. *)
Fixpoint poke_str (a : Z) (s : string) (m : Z -> option Z) : Z -> option Z :=
  match s with
  | EmptyString => poke8 a 0 m
  | String c s' => poke8 a (Z.of_N (N_of_ascii c)) (poke_str (a + 1) s' m)
  end.

Definition unmapped : Z -> option Z := fun _ => None.

Definition demo_functions : list functsym_t :=
  [ {| addr := 4096; name := "_start"; args := [] |};
    {| addr := 4200; name := "a";
       args := [ {| type := TYPE_STRING_ARRAY; offset := 8; arg_name := "v" |} ] |};
    {| addr := 4400; name := "b";
       args := [ {| type := TYPE_INT; offset := 8; arg_name := "x" |};
                 {| type := TYPE_STRING; offset := 12; arg_name := "s" |} ] |};
    {| addr := 4600; name := "exit";
       args := [ {| type := TYPE_INT; offset := 8; arg_name := "status" |} ] |} ].

Definition demo_world (m : Z -> option Z) (ebp : Z) : world :=
  {| FUNCTS_MAX_NUM := 8; ARGS_MAX_NUM := 6; MAX_FUNCTION_SIZE_BYTES := 100;
     functions := demo_functions;
     beyond := fun _ => null_funct;
     mem := m; trace_init_ebp := ebp;
     open_ret := 3; sigaction_ret := 0; sigprocmask_ret := 0;
     printf_f := fun _ => "?"%string; printf_lf := fun _ => "?"%string |}.

(** The stack of a chain [_start -> a -> b -> traceback]: the frame of
    [traceback] at 1000, of [b] at 1100, of [a] at 1200, of [_start] at 1300,
    each holding the caller's frame pointer and the return address, with the
    callee's arguments above them; the operand words the exit heuristic
    decodes sit four bytes past each return address. *)
Definition demo_mem : Z -> option Z :=
  poke32 1000 1100 (poke32 1004 4410
  (poke32 1100 1200 (poke32 1104 4210 (poke32 1108 5 (poke32 1112 3000
  (poke32 1200 1300 (poke32 1204 4100 (poke32 1208 3100
  (poke32 1300 0 (poke32 1304 77
  (poke_str 3000 "hi" (poke_str 3010 "there"
  (poke32 3100 3000 (poke32 3104 3010 (poke32 3108 0
  (poke32 4414 1000 (poke32 4214 0 (poke32 4104 0 unmapped)))))))))))))))))).

Definition demo : world := demo_world demo_mem 1000.

Definition fatal_line : string := ("FATAL: Stack Wrong!" ++ newline)%string.

(** [s'] is [s] after [text] went to [fp], with [stderr] and the globals as
    they were (loads and table reads may have been recorded). *)
Record wrote (s s' : state) (text : string) : Prop := {
  w_out : out s' = (out s ++ text)%string;
  w_err : err s' = err s;
  w_fd : fd s' = fd s;
  w_jump : jump_to s' = jump_to s
}.

(** The bytes [cs] lie at [p], each of them readable and printable. *)
Fixpoint printable_run (w : world) (p : Z) (cs : list Z) : Prop :=
  match cs with
  | [] => True
  | c :: cs' =>
      byte_at w p = Some c /\ isprint (schar c) = true /\ printable_run w (p + 1) cs'
  end.

(** The byte at [p] is unmapped, or is neither printable nor the terminator. *)
Definition breaks_string (w : world) (p : Z) : Prop :=
  byte_at w p = None \/
  exists c, byte_at w p = Some c /\ c <> 0 /\ isprint (schar c) = false.

(** The text [%c] writes for each byte of [cs] in turn. *)
Fixpoint chars (cs : list Z) : string :=
  match cs with
  | [] => ""%string
  | c :: cs' => (fmt_c c ++ chars cs')%string
  end.

(** The bytes of a Rocq string, as they lie in memory. *)
Fixpoint bytes_of (t : string) : list Z :=
  match t with
  | EmptyString => []
  | String c t' => Z.of_N (N_of_ascii c) :: bytes_of t'
  end.

Definition alphabet25 : string := "abcdefghijklmnopqrstuvwxy".

(** [s'] is [s] after [text] went to [fp], with [stderr] and [fd] as they
    were; [jump_to] may have been refilled. *)
Record emitted (s s' : state) (text : string) : Prop := {
  e_out : out s' = (out s ++ text)%string;
  e_err : err s' = err s;
  e_fd : fd s' = fd s
}.

(** A [print_string], run on the pointer [e] with the descriptor [fdv] in
    [fd], returns having written [t]. *)
Definition string_rule (print_string : Z -> M unit) (fdv : Z) (e : Z) (t : string)
  : Prop :=
  forall s, fd s = fdv ->
    exists s', print_string e s = Done tt s' /\ emitted s s' t.

(** The non-null words [es] lie at [a], one after the other. *)
Fixpoint array_at (w : world) (a : Z) (es : list Z) : Prop :=
  match es with
  | [] => True
  | e :: es' => word_at w a = Some e /\ e <> 0 /\ array_at w (a + 4) es'
  end.

(** The texts [ts] with [", "] in front of each but the one at index 0;
    [i] is the index of the first of them. *)
Fixpoint joined (i : Z) (ts : list string) : string :=
  match ts with
  | [] => ""%string
  | t :: ts' =>
      let sep := if 0 <? i then ", "%string else ""%string in
      (sep ++ t ++ joined (i + 1) ts')%string
  end.

Definition comma_join (ts : list string) : string := joined 0 ts.

(** What C5 asks of a [print_string_array] built on a [print_string]. *)
Definition array_rule (w : world) (print_string print_string_array : Z -> M unit)
           (fdv : Z) : Prop :=
  (forall s, exists s', print_string_array 0 s = Done tt s' /\ emitted s s' "0x0") /\
  (forall p es ts s,
      p <> 0 -> fd s = fdv -> array_at w p es ->
      Forall2 (string_rule print_string fdv) es ts ->
      Z.of_nat (List.length es) <= MAX_ARRAY_LEN ->
      word_at w (p + 4 * Z.of_nat (List.length es)) = Some 0 ->
      exists s', print_string_array p s = Done tt s' /\
                 emitted s s' ("{" ++ comma_join ts ++ "}")) /\
  (forall p es ts e s,
      p <> 0 -> fd s = fdv -> array_at w p es ->
      Forall2 (string_rule print_string fdv) es ts ->
      Z.of_nat (List.length es) = MAX_ARRAY_LEN ->
      word_at w (p + 4 * Z.of_nat (List.length es)) = Some e -> e <> 0 ->
      exists s', print_string_array p s = Done tt s' /\
                 emitted s s' ("{" ++ comma_join ts ++ ", ..." ++ "}")).

(** The demonstration stack with the argument of [a] pointing at nothing. *)
Definition wild_array_mem : Z -> option Z := poke32 1208 5000 demo_mem.

Definition quoted (t : string) : string := (dquote ++ t ++ dquote)%string.

(** The line of a resolved frame, as [traceback] writes it. *)
Definition frame_line (print_arguments : functsym_t -> Z -> M unit)
           (f : functsym_t) (old_ebp : Z) : M unit :=
  fprintf ("Function " ++ name f ++ "(") ;;;
  print_arguments f old_ebp ;;;
  fprintf ("), in" ++ newline).

(** The address the exit heuristic looks up:
    [return_address + *(int * )(return_address + 4) + 8]. *)
Definition exit_address (return_address operand : Z) : Z :=
  sint (return_address + sint operand + 8).

(** The two runs wrote the same text after what [fp] already held. *)
Definition same_text (s1 s2 s1' s2' : state) : Prop :=
  exists t, out s1' = (out s1 ++ t)%string /\ out s2' = (out s2 ++ t)%string.

(** Two runs, started in [s1] and [s2], ended the same way, with the same
    value, having written the same text, in states related by [R]. *)
Definition agree {A} (R : state -> state -> Prop) (s1 s2 : state)
           (r1 r2 : result A) : Prop :=
  match r1, r2 with
  | Done a s1', Done b s2' => a = b /\ R s1' s2' /\ same_text s1 s2 s1' s2'
  | Fault s1', Fault s2' => R s1' s2' /\ same_text s1 s2 s1' s2'
  | Exited s1', Exited s2' => R s1' s2' /\ same_text s1 s2 s1' s2'
  | OutOfFuel, OutOfFuel => True
  | _, _ => False
  end.

(** [m] behaves alike from any two states related by [R0], and leaves them
    related by [R]. *)
Definition uniform_from {A} (R0 R : state -> state -> Prop) (m : M A) : Prop :=
  forall s1 s2, R0 s1 s2 -> agree R s1 s2 (m s1) (m s2).

Definition uniform {A} (R : state -> state -> Prop) (m : M A) : Prop :=
  uniform_from R R m.

Definition any_states : state -> state -> Prop := fun _ _ => True.
Definition same_fd : state -> state -> Prop := fun s1 s2 => fd s1 = fd s2.
Definition same_jump_to : state -> state -> Prop :=
  fun s1 s2 => jump_to s1 = jump_to s2.

(** The byte at [a] ends a string scan: it is unmapped, the terminator, or
    not printable. *)
Definition stops (w : world) (a : Z) : Prop :=
  match byte_at w a with
  | None => True
  | Some c => c = 0 \/ isprint (schar c) = false
  end.

(** [m] ends (returns, faults or exits) from every state. *)
Definition halts {A} (m : M A) : Prop := forall s, halted (m s) = true.

(** A thousand letters at 3000, closed by a terminator. *)
Definition long_string_mem : Z -> option Z :=
  fun a => if (3000 <=? a) && (a <? 4000) then Some 97
           else if a =? 4000 then Some 0 else None.

(** A memory that is letters all over. *)
Definition letters_mem : Z -> option Z := fun _ => Some 97.

(** Three strings in an array that ends where the mapped memory ends. *)
Definition full_array_mem : Z -> option Z :=
  poke32 3100 3000 (poke32 3104 3010 (poke32 3108 3000
  (poke_str 3000 "hi" (poke_str 3010 "there" unmapped)))).

(** A table whose one function lies in the upper half of the address
    space, where [(int)addr] is negative. *)
Definition high_world : world :=
  {| FUNCTS_MAX_NUM := 8; ARGS_MAX_NUM := 6; MAX_FUNCTION_SIZE_BYTES := 100;
     functions := [ {| addr := 2 ^ 31; name := "f"; args := [] |} ];
     beyond := fun _ => null_funct;
     mem := unmapped; trace_init_ebp := 0;
     open_ret := 3; sigaction_ret := 0; sigprocmask_ret := 0;
     printf_f := fun _ => "?"%string; printf_lf := fun _ => "?"%string |}.

(** ** Vocabulary of the further properties *)

(** [i] indexes an entry of the [functions] array. *)
Definition in_table (w : world) (i : Z) : Prop := 0 <= i < FUNCTS_MAX_NUM w.

(** The call returned having written at most [n] characters to [fp] (or the
    model's loop bound was hit): it neither faulted nor exited. *)
Definition wrote_at_most (n : nat) (s : state) (r : result unit) : Prop :=
  match r with
  | Done _ s' => exists t, emitted s s' t /\ (String.length t <= n)%nat
  | OutOfFuel => True
  | Fault _ | Exited _ => False
  end.

(** What the validation scans of [is_string_print] keep, [len] bytes into
    the string at [p]: either every offset an [int] can reach has been found
    readable, or every offset below [len] has. *)
Definition scanned (w : world) (p len : Z) : Prop :=
  (forall j, 0 <= j < 2 ^ 31 -> byte_at w (p + j) <> None) \/
  (0 <= len /\ forall j, 0 <= j < len -> byte_at w (p + j) <> None).

(** A [print_argument], run on [arg] at the frame [ebp] with the descriptor
    [fdv] in [fd], returns having written [t]. *)
Definition argument_rule (print_argument : argsym_t -> Z -> M unit) (fdv ebp : Z)
           (arg : argsym_t) (t : string) : Prop :=
  forall s, fd s = fdv ->
    exists s', print_argument arg ebp s = Done tt s' /\ emitted s s' t.

(** The line of a frame whose return address resolves to nothing. *)
Definition raw_line (return_address : Z) : string :=
  ("Function 0x" ++ fmt_x return_address ++ "(...), in" ++ newline)%string.

(** The line of a frame resolved to [f], around the text of its arguments. *)
Definition named_line (f : functsym_t) (targs : string) : string :=
  ("Function " ++ name f ++ "(" ++ targs ++ "), in" ++ newline)%string.

Fixpoint text_of (lines : list string) : string :=
  match lines with
  | [] => ""%string
  | l :: ls => (l ++ text_of ls)%string
  end.

(** A stack as the fault-interception revision walks it from the frame
    pointer [ebp]: frames with readable words, each saving a frame pointer
    that is null or above its own, down to the null frame pointer; [lines]
    has a line per frame, innermost first. *)
Inductive intercept_stack (w : world) (fuel : nat) : Z -> list string -> Prop :=
| is_bottom : intercept_stack w fuel 0 []
| is_raw ebp old ra lines :
    ebp <> 0 -> word_at w ebp = Some old -> word_at w (ebp + 4) = Some ra ->
    old = 0 \/ ebp < old ->
    fst (Intercept.get_index w (sint ra)) < 0 ->
    intercept_stack w fuel old lines ->
    intercept_stack w fuel ebp (raw_line (sint ra) :: lines)
| is_named ebp old ra operand targs lines :
    ebp <> 0 -> word_at w ebp = Some old -> word_at w (ebp + 4) = Some ra ->
    old = 0 \/ ebp < old ->
    0 <= fst (Intercept.get_index w (sint ra)) ->
    word_at w (sint ra + 4) = Some operand ->
    (forall s, jump_to s = J_traceback ->
       exists s', Intercept.print_arguments w fuel
                    (funct_at w (fst (Intercept.get_index w (sint ra)))) old s
                  = Done tt s' /\ emitted s s' targs) ->
    intercept_stack w fuel old lines ->
    intercept_stack w fuel ebp
      (named_line (funct_at w (fst (Intercept.get_index w (sint ra)))) targs :: lines).

(** A stack as [src/traceback/traceback.c] walks it with the descriptor
    [fdv] in [fd]: frames saving a frame pointer above their own, down to a
    frame that [is_main] takes for the end, or to one that saves a frame
    pointer at or below its own. *)
Inductive probe_stack (w : world) (fuel : nat) (fdv : Z) : Z -> list string -> Prop :=
| ps_corrupt ebp old ra :
    word_at w ebp = Some old -> word_at w (ebp + 4) = Some ra ->
    old <= ebp ->
    probe_stack w fuel fdv ebp [fatal_line]
| ps_main ebp old ra operand :
    word_at w ebp = Some old -> word_at w (ebp + 4) = Some ra ->
    ebp < old ->
    0 <= fst (Probe.get_index w (sint ra)) ->
    word_at w (sint ra + 4) = Some operand ->
    fst (Probe.is_main w (fst (Probe.get_index w (sint ra)))
           (fst (Probe.get_index w (exit_address (sint ra) operand)))) = true ->
    probe_stack w fuel fdv ebp []
| ps_raw ebp old ra lines :
    word_at w ebp = Some old -> word_at w (ebp + 4) = Some ra ->
    ebp < old ->
    fst (Probe.get_index w (sint ra)) < 0 ->
    probe_stack w fuel fdv old lines ->
    probe_stack w fuel fdv ebp (raw_line (sint ra) :: lines)
| ps_named ebp old ra operand targs lines :
    word_at w ebp = Some old -> word_at w (ebp + 4) = Some ra ->
    ebp < old ->
    0 <= fst (Probe.get_index w (sint ra)) ->
    word_at w (sint ra + 4) = Some operand ->
    fst (Probe.is_main w (fst (Probe.get_index w (sint ra)))
           (fst (Probe.get_index w (exit_address (sint ra) operand)))) = false ->
    (forall s, fd s = fdv ->
       exists s', Probe.print_arguments w fuel
                    (funct_at w (fst (Probe.get_index w (sint ra)))) old s
                  = Done tt s' /\ emitted s s' targs) ->
    probe_stack w fuel fdv old lines ->
    probe_stack w fuel fdv ebp
      (named_line (funct_at w (fst (Probe.get_index w (sint ra)))) targs :: lines).

(** ** [trace_init_ebp.S] *)

(** The registers the routine touches. *)
Record regs : Type := { eax : Z; esp : Z; ebp : Z; eip : Z }.

(** A 32-bit word of a memory, little endian. *)
Definition mem_word (m : Z -> option Z) (a : Z) : option Z :=
  match m (wrap a), m (wrap (a + 1)), m (wrap (a + 2)), m (wrap (a + 3)) with
  | Some b0, Some b1, Some b2, Some b3 =>
      Some (b0 mod 256 + 2 ^ 8 * (b1 mod 256) + 2 ^ 16 * (b2 mod 256)
            + 2 ^ 24 * (b3 mod 256))
  | _, _, _, _ => None
  end.

(** A store of a word: it faults ([None]) on an unmapped byte. *)
Definition mem_store (m : Z -> option Z) (a v : Z) : option (Z -> option Z) :=
  match mem_word m a with
  | Some _ =>
      Some (poke8 (wrap a) (v mod 256)
           (poke8 (wrap (a + 1)) (v / 2 ^ 8 mod 256)
           (poke8 (wrap (a + 2)) (v / 2 ^ 16 mod 256)
           (poke8 (wrap (a + 3)) (v / 2 ^ 24 mod 256) m))))
  | None => None
  end.

(** [trace_init_ebp], instruction by instruction, from the registers and the
    memory at the [call]; [None] is a fault on the stack. *)
Definition trace_init_ebp_S (r : regs) (m : Z -> option Z)
  : option (regs * (Z -> option Z)) :=
  (* pushl %ebp *)
  let esp1 := wrap (esp r - 4) in
  match mem_store m esp1 (ebp r) with
  | None => None
  | Some m1 =>
      (* movl %esp,%ebp *)
      let ebp1 := esp1 in
      (* movl (%ebp),%eax *)
      match mem_word m1 ebp1 with
      | None => None
      | Some eax1 =>
          (* movl %ebp,%esp *)
          let esp2 := ebp1 in
          (* popl %ebp *)
          match mem_word m1 esp2 with
          | None => None
          | Some ebp2 =>
              let esp3 := wrap (esp2 + 4) in
              (* ret *)
              match mem_word m1 esp3 with
              | None => None
              | Some eip1 =>
                  Some ({| eax := eax1; esp := wrap (esp3 + 4); ebp := ebp2;
                           eip := eip1 |}, m1)
              end
          end
      end
  end.

(** The address of the frame slot [print_arguments] reads an argument from:
    [(int * )(ebp + arg.offset / int_size)]. *)
Definition slot_of (arg : argsym_t) (ebp : Z) : Z :=
  wrap (ebp + 4 * Z.quot (offset arg) 4).

(** [m] never ends the process. *)
Definition never_exits {A} (m : M A) : Prop := forall s s', m s <> Exited s'.

(** A world in which [sigaction] fails. *)
Definition no_handler_world : world :=
  {| FUNCTS_MAX_NUM := FUNCTS_MAX_NUM demo;
     ARGS_MAX_NUM := ARGS_MAX_NUM demo;
     MAX_FUNCTION_SIZE_BYTES := MAX_FUNCTION_SIZE_BYTES demo;
     functions := functions demo;
     beyond := beyond demo;
     mem := mem demo;
     trace_init_ebp := trace_init_ebp demo;
     open_ret := open_ret demo;
     sigaction_ret := -1;
     sigprocmask_ret := 0;
     printf_f := printf_f demo;
     printf_lf := printf_lf demo |}.

(** * Properties *)

(** ** Machine arithmetic *)

Lemma sint_id a : is_int a -> sint a = a.
Proof.
  unfold is_int, sint. intros H.
  destruct (Z.ltb_spec (a mod 2 ^ 32) (2 ^ 31)) as [L | L].
  - destruct (Z.le_gt_cases 0 a) as [P | P].
    + rewrite Z.mod_small; lia.
    + replace a with (a + 1 * 2 ^ 32 - 1 * 2 ^ 32) in L by lia.
      rewrite <- (Z.add_opp_r _ (1 * 2 ^ 32)), <- Z.mul_opp_l, Z.mod_add in L by lia.
      rewrite Z.mod_small in L; lia.
  - destruct (Z.le_gt_cases 0 a) as [P | P].
    + rewrite Z.mod_small in L; lia.
    + replace a with (a + 1 * 2 ^ 32 + (-1) * 2 ^ 32) at 1 by lia.
      rewrite Z.mod_add by lia. rewrite Z.mod_small; lia.
Qed.

Lemma wrap_range a : 0 <= wrap a < 2 ^ 32.
Proof. unfold wrap. apply Z.mod_pos_bound. lia. Qed.


(** ** The table scan of [get_index] *)

Section Scan.

Variable w : world.
Variable n : Z.
Hypothesis table : descriptors w n.
Variable a : Z.

(** Where the interception revision's scan stops: past every descriptor
    that starts at or below [a], at the first one that starts above it (or
    at the end of the descriptors). *)
Lemma intercept_scan_stop (fuel : nat) :
  forall i seen,
    Z.of_nat fuel = FUNCTS_MAX_NUM w - i -> 0 <= i <= n ->
    let r := fst (Intercept.get_index_loop w fuel i a seen) in
    i <= r <= n /\ (forall j, i <= j < r -> start w j <= a) /\ (r < n -> a < start w r).
Proof.
  destruct table as [Hc Hn Hs _].
  induction fuel as [| fuel IH]; intros i seen Hf Hi; cbn [Intercept.get_index_loop].
  - cbn. repeat split; intros; lia.
  - destruct (nonempty (name (funct_at w i))) eqn:En.
    + fold (start w i).
      destruct (Z.gtb_spec (start w i) a) as [G | G].
      * cbn. repeat split; intros; lia.
      * assert (i < n).
        { destruct (Z.eq_dec i n) as [-> | ]; [| lia].
          rewrite Hs in En by lia. discriminate. }
        specialize (IH (i + 1) (seen ++ [i])%list ltac:(lia) ltac:(lia)).
        cbn zeta in IH. destruct IH as (R1 & R2 & R3).
        split; [lia | split; [| exact R3]].
        intros j Hj. destruct (Z.eq_dec j i) as [-> | ]; [lia | apply R2; lia].
    + cbn. assert (i = n).
      { destruct (Z.eq_dec i n); [assumption |].
        rewrite Hn in En by lia. discriminate. }
      repeat split; intros; lia.
Qed.

(** The same for the probe revision, whose flag records whether a
    descriptor above [a] was met. *)
Lemma probe_scan_stop (fuel : nat) :
  forall i seen,
    Z.of_nat fuel = FUNCTS_MAX_NUM w - i -> 0 <= i <= n ->
    let '(r, find, _) := Probe.get_index_loop w fuel i a seen in
    i <= r <= n /\ (forall j, i <= j < r -> start w j <= a) /\
    (find = true -> r < n /\ a < start w r) /\ (find = false -> r = n).
Proof.
  destruct table as [Hc Hn Hs _].
  induction fuel as [| fuel IH]; intros i seen Hf Hi; cbn [Probe.get_index_loop].
  - repeat split; intros; try discriminate; lia.
  - destruct (nonempty (name (funct_at w i))) eqn:En.
    + fold (start w i).
      assert (i < n).
      { destruct (Z.eq_dec i n) as [-> | ]; [| lia].
        rewrite Hs in En by lia. discriminate. }
      destruct (Z.gtb_spec (start w i) a) as [G | G].
      * repeat split; intros; try discriminate; lia.
      * specialize (IH (i + 1) (seen ++ [i])%list ltac:(lia) ltac:(lia)).
        destruct (Probe.get_index_loop w fuel (i + 1) a (seen ++ [i])) as [[r find] sn].
        destruct IH as (R1 & R2 & R3 & R4).
        split; [lia | split; [| split; [exact R3 | exact R4]]].
        intros j Hj. destruct (Z.eq_dec j i) as [-> | ]; [lia | apply R2; lia].
    + assert (i = n).
      { destruct (Z.eq_dec i n); [assumption |].
        rewrite Hn in En by lia. discriminate. }
      repeat split; intros; try discriminate; lia.
Qed.

(** The stop index is the number of descriptors starting at or below [a]. *)
Lemma stop_unique r r' :
  0 <= r <= n -> (forall j, 0 <= j < r -> start w j <= a) -> (r < n -> a < start w r) ->
  0 <= r' <= n -> (forall j, 0 <= j < r' -> start w j <= a) -> (r' < n -> a < start w r') ->
  r = r'.
Proof.
  intros Hr Lr Ur Hr' Lr' Ur'.
  destruct (Z.lt_trichotomy r r') as [L | [E | L]]; [| assumption |].
  - specialize (Lr' r ltac:(lia)). specialize (Ur ltac:(lia)). lia.
  - specialize (Lr r' ltac:(lia)). specialize (Ur' ltac:(lia)). lia.
Qed.

Lemma sorted_le i j : 0 <= i <= j -> j < n -> start w i <= start w j.
Proof.
  intros Hij Hj. destruct (Z.eq_dec i j) as [-> | ]; [lia |].
  pose proof (d_sorted _ _ table i j ltac:(lia) Hj). lia.
Qed.

End Scan.

(** The interception revision's [get_index], by the stop index of its scan. *)
Lemma intercept_get_index_stop w n a r :
  descriptors w n ->
  0 <= r <= n -> (forall j, 0 <= j < r -> start w j <= a) -> (r < n -> a < start w r) ->
  fst (Intercept.get_index w a) =
    if sint (a - start w (r - 1)) <? MAX_FUNCTION_SIZE_BYTES w then r - 1 else -1.
Proof.
  intros T Hr Lr Ur. unfold Intercept.get_index.
  pose proof (intercept_scan_stop w n T a (Z.to_nat (FUNCTS_MAX_NUM w)) 0 []) as S.
  destruct T as [Hc Hn Hs Hso] eqn:ET.
  specialize (S ltac:(lia) ltac:(lia)). cbn zeta in S.
  destruct (Intercept.get_index_loop w (Z.to_nat (FUNCTS_MAX_NUM w)) 0 a []) as [r' seen].
  cbn [fst] in S. destruct S as (S1 & S2 & S3).
  assert (r' = r) as ->.
  { eapply (stop_unique w n a); eauto. }
  fold (start w (r - 1)).
  destruct (Z.geb_spec r 0); [| lia]. cbn zeta.
  destruct (sint (a - start w (r - 1)) <? MAX_FUNCTION_SIZE_BYTES w); reflexivity.
Qed.

(** The probe revision's [get_index], by the stop index of its scan. *)
Lemma probe_get_index_stop w n a r :
  descriptors w n ->
  0 <= r <= n -> (forall j, 0 <= j < r -> start w j <= a) -> (r < n -> a < start w r) ->
  fst (Probe.get_index w a) = if r <? n then r - 1 else -1.
Proof.
  intros T Hr Lr Ur. unfold Probe.get_index.
  pose proof (probe_scan_stop w n T a (Z.to_nat (FUNCTS_MAX_NUM w)) 0 []) as S.
  destruct T as [Hc Hn Hs Hso] eqn:ET.
  specialize (S ltac:(lia) ltac:(lia)).
  destruct (Probe.get_index_loop w (Z.to_nat (FUNCTS_MAX_NUM w)) 0 a []) as [[r' find] seen].
  destruct S as (S1 & S2 & S3 & S4). cbn [fst].
  assert (r' = r) as ->.
  { eapply (stop_unique w n a); eauto.
    intros L. destruct find; [apply S3; reflexivity | specialize (S4 eq_refl); lia]. }
  destruct find.
  - destruct (S3 eq_refl) as [L _]. destruct (Z.ltb_spec r n); [reflexivity | lia].
  - specialize (S4 eq_refl). destruct (Z.ltb_spec r n); [lia | reflexivity].
Qed.

Lemma intercept_get_index_spec w n a :
  descriptors w n ->
  exists r,
    0 <= r <= n /\ (forall j, 0 <= j < r -> start w j <= a) /\ (r < n -> a < start w r) /\
    fst (Intercept.get_index w a) =
      if sint (a - start w (r - 1)) <? MAX_FUNCTION_SIZE_BYTES w then r - 1 else -1.
Proof.
  intros T.
  pose proof (intercept_scan_stop w n T a (Z.to_nat (FUNCTS_MAX_NUM w)) 0 []) as S.
  pose proof (d_count _ _ T) as Hc.
  specialize (S ltac:(lia) ltac:(lia)). cbn zeta in S.
  destruct S as (S1 & S2 & S3).
  eexists. repeat split; try eassumption; try lia.
  eapply intercept_get_index_stop; eauto.
Qed.

Lemma probe_get_index_spec w n a :
  descriptors w n ->
  exists r,
    0 <= r <= n /\ (forall j, 0 <= j < r -> start w j <= a) /\ (r < n -> a < start w r) /\
    fst (Probe.get_index w a) = if r <? n then r - 1 else -1.
Proof.
  intros T.
  destruct (intercept_get_index_spec w n a T) as (r & R1 & R2 & R3 & _).
  exists r. repeat split; try assumption; try lia.
  eapply probe_get_index_stop; eauto.
Qed.

(** The demonstration table is well formed. *)
Lemma demo_descriptors m ebp : descriptors (demo_world m ebp) 4.
Proof.
  split.
  - cbn. lia.
  - intros i Hi.
    assert (i = 0 \/ i = 1 \/ i = 2 \/ i = 3) as [-> | [-> | [-> | ->]]] by lia;
      reflexivity.
  - intros _. reflexivity.
  - intros i j Hi Hj.
    assert (i = 0 \/ i = 1 \/ i = 2) as Ei by lia.
    assert (j = 1 \/ j = 2 \/ j = 3) as Ej by lia.
    destruct Ei as [-> | [-> | ->]]; destruct Ej as [-> | [-> | ->]];
      try lia; vm_compute; reflexivity.
Qed.

(** C1, as stated, fails on [src/traceback/traceback.c]: the start address of
    the last descriptor of a well-formed table resolves to nothing, and an
    address in the gap past a descriptor's size bound resolves to it. *)
Lemma get_index_probe_misses_contract :
  let w := demo_world unmapped 0 in
  descriptors w 4 /\
  start w 3 = 4600 /\ fst (Probe.get_index w 4600) = -1 /\
  (forall k, 0 <= k < 4 -> ~ covered w k 4399) /\ fst (Probe.get_index w 4399) = 1.
Proof.
  cbn zeta. split; [apply demo_descriptors |].
  split; [reflexivity |]. split; [reflexivity |]. split; [| reflexivity].
  intros k Hk [L U].
  assert (k = 0 \/ k = 1 \/ k = 2 \/ k = 3) as [-> | [-> | [-> | ->]]] by lia;
    vm_compute in L, U; try (apply L; reflexivity); try (revert U; vm_compute; discriminate).
Qed.

(** Why the contract asks for non-negative start addresses: the size check
    subtracts [int]s, and across the sign change the difference wraps, so an
    address almost 4 GB past a start passes for one just before it. *)
Lemma size_check_wraps :
  start high_world 0 = - 2 ^ 31 /\
  (2 ^ 31 - 1) - start high_world 0 >= MAX_FUNCTION_SIZE_BYTES high_world /\
  fst (Intercept.get_index high_world (2 ^ 31 - 1)) = 0.
Proof. repeat split; vm_compute; congruence. Qed.

(** C1 (amended).  On a table of [n] descriptors sorted by start address,
    all starting at non-negative [int]s, and a positive size bound, the
    fault-interception revision's [get_index] answers -1 for every address
    that no descriptor covers, answers [k] at the start address of descriptor
    [k], and answers a descriptor only for an address it covers.  The
    side-effect-probe revision has no size bound: it answers descriptor [k]
    for every address from its start up to the next descriptor's start, and
    -1 below the first start. *)
Theorem get_index_contract w n a :
  descriptors w n -> is_int a ->
  0 < MAX_FUNCTION_SIZE_BYTES w ->
  (forall k, 0 <= k < n -> 0 <= start w k) ->
  ((forall k, 0 <= k < n -> ~ covered w k a) -> fst (Intercept.get_index w a) = -1) /\
  (forall k, 0 <= k < n -> a = start w k -> fst (Intercept.get_index w a) = k) /\
  (forall k, 0 <= k -> fst (Intercept.get_index w a) = k -> k < n /\ covered w k a) /\
  (forall k, 0 <= k -> k + 1 < n -> start w k <= a < start w (k + 1) ->
             fst (Probe.get_index w a) = k) /\
  (n = 0 \/ a < start w 0 -> fst (Probe.get_index w a) = -1).
Proof.
  intros T Ha Hmax Hpos.
  assert (Hdiff : forall k, 0 <= k < n -> start w k <= a ->
                            sint (a - start w k) = a - start w k).
  { intros k Hk Hle. apply sint_id. specialize (Hpos k Hk). unfold is_int in *. lia. }
  destruct (intercept_get_index_spec w n a T) as (r & R1 & R2 & R3 & R4).
  destruct (probe_get_index_spec w n a T) as (r' & P1 & P2 & P3 & P4).
  assert (r' = r) as -> by (eapply (stop_unique w n a); eauto).
  split; [| split; [| split; [| split]]].
  - intros Hout. rewrite R4.
    destruct (Z.eq_dec r 0) as [-> | Hr0].
    { destruct (sint _ <? _); reflexivity. }
    rewrite Hdiff by (try apply R2; lia).
    destruct (Z.ltb_spec (a - start w (r - 1)) (MAX_FUNCTION_SIZE_BYTES w)); [| reflexivity].
    exfalso. apply (Hout (r - 1)); [lia |]. unfold covered.
    specialize (R2 (r - 1) ltac:(lia)). lia.
  - intros k Hk ->. rewrite R4.
    assert (r = k + 1) as ->.
    { eapply (stop_unique w n (start w k)); eauto; try lia.
      - intros j Hj. apply (sorted_le w n T); lia.
      - intros L. apply (d_sorted _ _ T); lia. }
    replace (k + 1 - 1) with k by lia. rewrite Z.sub_diag.
    change (sint 0) with 0.
    destruct (Z.ltb_spec 0 (MAX_FUNCTION_SIZE_BYTES w)); [reflexivity | lia].
  - intros k Hk Ek. rewrite R4 in Ek.
    destruct (Z.ltb_spec (sint (a - start w (r - 1))) (MAX_FUNCTION_SIZE_BYTES w)) as [L | L];
      [| lia].
    assert (k = r - 1) as -> by lia. split; [lia |].
    specialize (R2 (r - 1) ltac:(lia)).
    rewrite Hdiff in L by lia. unfold covered. lia.
  - intros k Hk Hk1 [L U]. rewrite P4.
    assert (r = k + 1) as ->.
    { eapply (stop_unique w n a); eauto; try lia.
      intros j Hj. pose proof (sorted_le w n T j k ltac:(lia) ltac:(lia)). lia. }
    destruct (Z.ltb_spec (k + 1) n); lia.
  - intros H. rewrite P4.
    destruct (Z.ltb_spec r n) as [L | L]; [| reflexivity].
    destruct H as [-> | H]; [lia |].
    destruct (Z.eq_dec r 0) as [-> | Hr0]; [reflexivity |].
    specialize (R2 0 ltac:(lia)). lia.
Qed.

Lemma get_index_contract_witness :
  let w := demo_world unmapped 0 in
  fst (Intercept.get_index w 4600) = 3 /\ fst (Intercept.get_index w 4399) = -1 /\
  fst (Probe.get_index w 4450) = 2.
Proof.
  cbn zeta.
  assert (P : forall k, 0 <= k < 4 -> 0 <= start (demo_world unmapped 0) k).
  { intros k Hk.
    assert (k = 0 \/ k = 1 \/ k = 2 \/ k = 3) as [-> | [-> | [-> | ->]]] by lia;
      vm_compute; discriminate. }
  split; [| split].
  - destruct (get_index_contract (demo_world unmapped 0) 4 4600
                (demo_descriptors unmapped 0) ltac:(unfold is_int; lia)
                ltac:(cbn; lia) P) as (_ & B & _).
    apply (B 3); [lia | reflexivity].
  - destruct (get_index_contract (demo_world unmapped 0) 4 4399
                (demo_descriptors unmapped 0) ltac:(unfold is_int; lia)
                ltac:(cbn; lia) P) as (A & _).
    apply A. intros k Hk [L U].
    assert (k = 0 \/ k = 1 \/ k = 2 \/ k = 3) as [-> | [-> | [-> | ->]]] by lia;
      vm_compute in L, U; try (apply L; reflexivity);
      try (revert U; vm_compute; discriminate).
  - destruct (get_index_contract (demo_world unmapped 0) 4 4450
                (demo_descriptors unmapped 0) ltac:(unfold is_int; lia)
                ltac:(cbn; lia) P) as (_ & _ & _ & D & _).
    apply (D 2); [lia | lia | split; [vm_compute; discriminate | vm_compute; reflexivity]].
Defined.

(** ** Loads *)

Lemma byte_at_range w a b : byte_at w a = Some b -> 0 <= b < 256.
Proof.
  unfold byte_at. destruct (mem w (wrap a)); cbn; [| discriminate].
  intros [= <-]. apply Z.mod_pos_bound. lia.
Qed.

Lemma word_at_range w a v : word_at w a = Some v -> 0 <= v < 2 ^ 32.
Proof.
  unfold word_at.
  destruct (byte_at w a) as [b0 |] eqn:E0; [| discriminate].
  destruct (byte_at w (a + 1)) as [b1 |] eqn:E1; [| discriminate].
  destruct (byte_at w (a + 2)) as [b2 |] eqn:E2; [| discriminate].
  destruct (byte_at w (a + 3)) as [b3 |] eqn:E3; [| discriminate].
  intros E. assert (V : v = b0 + 2 ^ 8 * b1 + 2 ^ 16 * b2 + 2 ^ 24 * b3) by congruence.
  clear E.
  apply byte_at_range in E0. apply byte_at_range in E1.
  apply byte_at_range in E2. apply byte_at_range in E3.
  change (2 ^ 8) with 256 in V. change (2 ^ 16) with 65536 in V.
  change (2 ^ 24) with 16777216 in V. change (2 ^ 32) with 4294967296. lia.
Qed.

(** ** C9: the size check of [get_index] reads in front of the table *)

(** Below the first descriptor the scan stops at index 0, and the size check
    reads the entry in front of the table whatever it then answers. *)
Lemma intercept_get_index_below_first w a :
  0 < FUNCTS_MAX_NUM w -> nonempty (name (funct_at w 0)) = true -> a < start w 0 ->
  Intercept.get_index w a = (-1, [0; -1]) /\ in_bounds w (-1) = false.
Proof.
  intros Hmax Hname Hlow. split; [| reflexivity].
  unfold Intercept.get_index.
  destruct (Z.to_nat (FUNCTS_MAX_NUM w)) as [| k] eqn:Ek; [lia |].
  cbn [Intercept.get_index_loop]. rewrite Hname. fold (start w 0).
  destruct (Z.gtb_spec (start w 0) a); [| lia].
  cbn. destruct (_ <? _); reflexivity.
Qed.

(** C9 fails on the code: for a return address below the first descriptor's
    start the scan stops at index 0 and the size check reads
    [functions[-1]]. *)
Theorem get_index_reads_before_table :
  4000 < start demo 0 /\
  Intercept.get_index demo 4000 = (-1, [0; -1]) /\
  in_bounds demo (-1) = false.
Proof. repeat split. Qed.

(** ** C10: [is_main] is handed the -1 of a failed exit lookup *)

(** C10 fails on the code: for the first frame of the demonstration stack
    the exit heuristic's address resolves to nothing, [traceback] passes the
    resulting -1 to [is_main], and [is_main] reads [functions[-1]]. *)
Theorem is_main_reads_before_table :
  fst (Probe.get_index demo (sint (4410 + sint 1000 + 8))) = -1 /\
  snd (Probe.is_main demo 2 (-1)) = [-1; 2] /\
  In (-1) (tbl (final (Probe.traceback demo 100 100 initial))) /\
  in_bounds demo (-1) = false.
Proof.
  split; [reflexivity |]. split; [reflexivity |]. split; [| reflexivity].
  vm_compute. tauto.
Qed.

(** ** C2: the corruption check *)

(** C2, as stated, fails on the code: the frame of [traceback] in the
    demonstration stack saves a frame pointer that is non-null and not below
    the current one, and both revisions print its frame line and go on to
    read the caller's frame. *)
Lemma higher_saved_frame_pointer_is_healthy :
  word_at demo 1000 = Some 1100 /\ 1100 <> 0 /\ 1100 >= 1000 /\
  output (Probe.traceback_loop demo 100 100 1000 initial) =
    Some ("Function b(int x=5, char *s=" ++ dquote ++ "hi" ++ dquote ++ "), in" ++ newline ++
          "Function a(char **v={" ++ dquote ++ "hi" ++ dquote ++ ", " ++
          dquote ++ "there" ++ dquote ++ "}), in" ++ newline)%string /\
  In 1100 (reads (final (Probe.traceback_loop demo 100 100 1000 initial))) /\
  output (Intercept.traceback_loop demo 100 100 1000 initial) =
    Some ("Function b(int x=5, char *s=" ++ dquote ++ "hi" ++ dquote ++ "), in" ++ newline ++
          "Function a(char **v={" ++ dquote ++ "hi" ++ dquote ++ ", " ++
          dquote ++ "there" ++ dquote ++ "}), in" ++ newline ++
          "Function _start(void), in" ++ newline ++
          "Function 0x4d(...), in" ++ newline)%string /\
  In 1100 (reads (final (Intercept.traceback_loop demo 100 100 1000 initial))).
Proof.
  split; [reflexivity |]. split; [lia |]. split; [lia |].
  split; [vm_compute; reflexivity |]. split; [vm_compute; tauto |].
  split; [vm_compute; reflexivity |]. vm_compute; tauto.
Qed.

(** C2 (amended).  For every frame whose saved frame pointer is non-null and
    not strictly above the current frame pointer (that is, <=), each revision
    of the walker loads the two words of the frame, writes exactly the line
    [FATAL: Stack Wrong!] and returns: the loop takes no further turn and
    loads nothing else. *)
Theorem corrupt_frame_halts w fuel steps ebp old ra s :
  word_at w ebp = Some old -> word_at w (ebp + 4) = Some ra ->
  old <> 0 -> old <= ebp ->
  Probe.traceback_loop w fuel (S steps) ebp s =
    Done tt (write_out fatal_line (log_read (wrap (ebp + 4)) (log_read (wrap ebp) s))) /\
  Intercept.traceback_loop w fuel (S steps) ebp s =
    Done tt (write_out fatal_line
               (log_read (wrap (ebp + 4)) (log_read (wrap ebp) (set_jump J_traceback s)))).
Proof.
  intros Hold Hra Hnz Hle.
  pose proof (word_at_range _ _ _ Hold) as Ro.
  split.
  - cbn [Probe.traceback_loop]. unfold bind at 1, load32 at 1. rewrite Hold.
    unfold bind at 1, load32 at 1. rewrite Hra.
    destruct (Z.geb_spec ebp old); [reflexivity | lia].
  - cbn [Intercept.traceback_loop]. unfold sigsetjmp, resume.
    destruct (Z.eqb_spec ebp 0); [lia |].
    unfold bind at 1, load32 at 1. rewrite Hold.
    unfold bind at 1, load32 at 1. rewrite Hra.
    destruct (Z.eqb_spec old 0); [contradiction |].
    destruct (Z.geb_spec ebp old); [cbn [negb andb]; reflexivity | lia].
Qed.

Lemma corrupt_frame_halts_witness :
  let w := demo_world (poke32 1000 1000 (poke32 1004 4410 unmapped)) 1000 in
  output (Probe.traceback_loop w 0 1 1000 initial) = Some fatal_line /\
  reads (final (Intercept.traceback_loop w 0 1 1000 initial)) = [1004; 1000].
Proof.
  cbn zeta.
  destruct (corrupt_frame_halts
              (demo_world (poke32 1000 1000 (poke32 1004 4410 unmapped)) 1000)
              0 0 1000 1000 4410 initial
              ltac:(reflexivity) ltac:(reflexivity) ltac:(lia) ltac:(lia)) as [P I].
  rewrite P, I. split; reflexivity.
Defined.

(** ** Output bookkeeping *)

Lemma append_assoc (a b c : string) : ((a ++ b) ++ c = a ++ (b ++ c))%string.
Proof. induction a as [| x a IH]; cbn; [reflexivity | now rewrite IH]. Qed.

Lemma append_nil_r (a : string) : (a ++ "" = a)%string.
Proof. induction a as [| x a IH]; cbn; [reflexivity | now rewrite IH]. Qed.

Lemma wrote_refl s : wrote s s "".
Proof. split; try reflexivity. now rewrite append_nil_r. Qed.

Lemma wrote_trans s1 s2 s3 t u :
  wrote s1 s2 t -> wrote s2 s3 u -> wrote s1 s3 (t ++ u).
Proof.
  intros [A1 A2 A3 A4] [B1 B2 B3 B4]. split; try congruence.
  rewrite B1, A1. apply append_assoc.
Qed.

Lemma wrote_log_read a s : wrote s (log_read a s) "".
Proof. split; try reflexivity. cbn. now rewrite append_nil_r. Qed.

Lemma wrote_log_tbl l s : wrote s (log_tbl l s) "".
Proof. split; try reflexivity. cbn. now rewrite append_nil_r. Qed.

Lemma wrote_write_out t s : wrote s (write_out t s) t.
Proof. split; reflexivity. Qed.

Create HintDb wrote.
#[local] Hint Resolve wrote_refl wrote_log_read wrote_log_tbl wrote_write_out : wrote.

Lemma wrote_nil_trans s1 s2 s3 t :
  wrote s1 s2 "" -> wrote s2 s3 t -> wrote s1 s3 t.
Proof. intros A B. exact (wrote_trans _ _ _ _ _ A B). Qed.

Lemma wrote_trans_nil s1 s2 s3 t :
  wrote s1 s2 t -> wrote s2 s3 "" -> wrote s1 s3 t.
Proof.
  intros A B. rewrite <- (append_nil_r t). exact (wrote_trans _ _ _ _ _ A B).
Qed.

Lemma isprint_nonzero c : isprint (schar c) = true -> c <> 0.
Proof. intros H ->. discriminate H. Qed.

(** ** C3: [print_string] of the probe revision *)

Section ProbeString.

Variable w : world.
Variable p : Z.

(** One turn of the validation scan over a readable byte. *)
Lemma probe_scan_turn fuel len c s :
  byte_at w (p + len) = Some c -> 0 <= fd s ->
  Probe.is_string_print_loop w (S fuel) p len s =
    let s' := log_read (wrap (p + len)) s in
    if c =? 0 then Done (Some len) s'
    else if negb (isprint (schar c)) then Done None s'
    else Probe.is_string_print_loop w fuel p (sint (len + 1)) s'.
Proof.
  intros Hb Hfd. cbn [Probe.is_string_print_loop].
  unfold bind at 1, Probe.isvalid at 1, Probe.sys_write.
  destruct (Z.ltb_spec (fd s) 0) as [? | _]; [lia |]. rewrite Hb.
  cbn [negb Z.ltb Z.compare].
  unfold bind at 1, load8 at 1. rewrite Hb. cbn zeta.
  destruct (c =? 0); [reflexivity |].
  destruct (negb (isprint (schar c))); reflexivity.
Qed.

(** The validation scan walks over a run of printable bytes. *)
Lemma probe_scan_run : forall cs fuel len s,
  printable_run w (p + len) cs -> 0 <= fd s ->
  0 <= len -> len + Z.of_nat (List.length cs) < 2 ^ 31 ->
  exists s', wrote s s' "" /\
    Probe.is_string_print_loop w (List.length cs + fuel) p len s =
    Probe.is_string_print_loop w fuel p (len + Z.of_nat (List.length cs)) s'.
Proof.
  induction cs as [| c cs IH]; intros fuel len s Hrun Hfd Hlen Hmax.
  - exists s. split; [apply wrote_refl |]. cbn. now rewrite Z.add_0_r.
  - destruct Hrun as (Hb & Hp & Hrest).
    cbn [List.length Nat.add]. rewrite (probe_scan_turn _ _ c) by assumption.
    cbn zeta.
    destruct (Z.eqb_spec c 0) as [E | _];
      [exfalso; revert E; now apply isprint_nonzero |].
    rewrite Hp. cbn [negb].
    cbn [List.length] in Hmax.
    rewrite sint_id by (unfold is_int; lia).
    destruct (IH fuel (len + 1) (log_read (wrap (p + len)) s)) as (s' & W & E).
    + now replace (p + (len + 1)) with (p + len + 1) by lia.
    + exact Hfd.
    + lia.
    + lia.
    + exists s'. split.
      * eapply wrote_nil_trans; [apply wrote_log_read | exact W].
      * rewrite E. f_equal. lia.
Qed.

(** ... and returns the length when the run ends in the terminator. *)
Lemma probe_scan_length cs fuel s :
  p <> 0 -> printable_run w p cs ->
  byte_at w (p + Z.of_nat (List.length cs)) = Some 0 ->
  0 <= fd s -> Z.of_nat (List.length cs) < 2 ^ 31 -> (List.length cs < fuel)%nat ->
  exists s', wrote s s' "" /\
    Probe.is_string_print w fuel p s = Done (Some (Z.of_nat (List.length cs))) s'.
Proof.
  intros Hp Hrun Hend Hfd Hmax Hfuel.
  unfold Probe.is_string_print. destruct (Z.eqb_spec p 0); [contradiction |].
  destruct (probe_scan_run cs (fuel - List.length cs) 0 s) as (s' & W & E);
    try assumption; try lia.
  { now rewrite Z.add_0_r. }
  replace (List.length cs + (fuel - List.length cs))%nat with fuel in E by lia.
  rewrite E. cbn [Z.add].
  destruct (fuel - List.length cs)%nat as [| f] eqn:Ef; [lia |].
  rewrite (probe_scan_turn _ _ 0) by (try assumption; rewrite (w_fd _ _ _ W); assumption).
  cbn. eexists. split; [| reflexivity].
  eapply wrote_nil_trans; [exact W | apply wrote_log_read].
Qed.

(** ... and gives up when the run ends in a byte that breaks the string,
    whatever the descriptor; nothing is loaded that was not probed. *)
Lemma probe_scan_break cs fuel s :
  p <> 0 -> printable_run w p cs ->
  breaks_string w (p + Z.of_nat (List.length cs)) ->
  Z.of_nat (List.length cs) < 2 ^ 31 -> (List.length cs < fuel)%nat ->
  exists s', wrote s s' "" /\ Probe.is_string_print w fuel p s = Done None s'.
Proof.
  intros Hp Hrun Hend Hmax Hfuel.
  unfold Probe.is_string_print. destruct (Z.eqb_spec p 0); [contradiction |].
  destruct (Z.ltb_spec (fd s) 0) as [Hfd | Hfd].
  { (* a bad descriptor: the first probe already fails *)
    destruct fuel as [| fuel]; [lia |].
    cbn [Probe.is_string_print_loop].
    unfold bind at 1, Probe.isvalid at 1, Probe.sys_write.
    destruct (Z.ltb_spec (fd s) 0) as [_ | ?]; [| lia]. cbn.
    exists s. split; [apply wrote_refl | reflexivity]. }
  destruct (probe_scan_run cs (fuel - List.length cs) 0 s) as (s' & W & E);
    try assumption; try lia.
  { now rewrite Z.add_0_r. }
  replace (List.length cs + (fuel - List.length cs))%nat with fuel in E by lia.
  rewrite E. cbn [Z.add].
  destruct (fuel - List.length cs)%nat as [| f] eqn:Ef; [lia |].
  assert (Hfd' : 0 <= fd s') by (rewrite (w_fd _ _ _ W); assumption).
  destruct Hend as [Hnone | (c & Hc & Hnz & Hnp)].
  - cbn [Probe.is_string_print_loop].
    unfold bind at 1, Probe.isvalid at 1, Probe.sys_write.
    destruct (Z.ltb_spec (fd s') 0) as [? | _]; [lia |]. rewrite Hnone. cbn.
    exists s'. split; [exact W | reflexivity].
  - rewrite (probe_scan_turn _ _ c) by assumption. cbn zeta.
    destruct (Z.eqb_spec c 0); [contradiction |]. rewrite Hnp. cbn [negb].
    eexists. split; [| reflexivity].
    eapply wrote_nil_trans; [exact W | apply wrote_log_read].
Qed.

(** The printing loop writes the first [n] bytes of the run. *)
Lemma print_chars_run : forall n cs i s length,
  printable_run w (p + i) cs -> length = i + Z.of_nat (List.length cs) ->
  exists s', wrote s s' (chars (firstn n cs)) /\
    print_chars w n i p length s =
      Done (i + Z.of_nat (Nat.min n (List.length cs))) s'.
Proof.
  induction n as [| n IH]; intros cs i s length Hrun Hlen.
  - exists s. split; [apply wrote_refl |]. cbn. now rewrite Z.add_0_r.
  - cbn [print_chars]. destruct cs as [| c cs].
    + cbn [List.length] in Hlen. destruct (Z.ltb_spec i length); [lia |].
      exists s. split; [apply wrote_refl |]. cbn. unfold ret. now rewrite Z.add_0_r.
    + destruct Hrun as (Hb & Hp & Hrest). cbn [List.length] in Hlen.
      destruct (Z.ltb_spec i length); [| lia].
      unfold bind at 1, load8 at 1. rewrite Hb.
      unfold bind at 1, fprintf at 1.
      destruct (IH cs (i + 1) (write_out (fmt_c c) (log_read (wrap (p + i)) s)) length)
        as (s' & W & E).
      * now replace (p + (i + 1)) with (p + i + 1) by lia.
      * lia.
      * exists s'. split.
        -- cbn [firstn chars].
           eapply wrote_trans; [| exact W].
           eapply wrote_nil_trans; [apply wrote_log_read | apply wrote_write_out].
        -- rewrite E. f_equal. cbn [List.length Nat.min]. lia.
Qed.

End ProbeString.

(** C3, as stated, fails on the code: a readable, printable, terminated
    string of exactly [MAX_STRING_LEN] = 25 characters is written whole
    between quotes, with no ellipsis after it. *)
Lemma string_of_max_length_is_not_cut :
  let w := demo_world (poke_str 3000 alphabet25 unmapped) 0 in
  printable_run w 3000 (bytes_of alphabet25) /\
  byte_at w (3000 + 25) = Some 0 /\
  Z.of_nat (List.length (bytes_of alphabet25)) >= MAX_STRING_LEN /\
  output (Probe.print_string w 100 3000 initial) =
    Some (dquote ++ alphabet25 ++ dquote)%string.
Proof.
  cbn zeta. split; [| split; [reflexivity | split; [vm_compute; discriminate | reflexivity]]].
  vm_compute. tauto.
Qed.

(** C3 (amended).  In [src/traceback/traceback.c], [print_string] writes the
    raw pointer ([%#x]) for a null pointer; for a non-null pointer to a run
    of readable printable bytes [cs] closed by a terminator, with a valid
    probe descriptor, it writes the whole of [cs] between double quotes when
    its length is at most [MAX_STRING_LEN], and the first [MAX_STRING_LEN]
    bytes followed by [...] between double quotes when it is longer; when the
    run is closed by an unmapped byte or by a byte that is not printable, it
    writes the raw pointer.  In each case the call returns. *)
Theorem print_string_rendering w fuel p cs s :
  p <> 0 -> printable_run w p cs ->
  Z.of_nat (List.length cs) < 2 ^ 31 -> (List.length cs < fuel)%nat ->
  (exists s', Probe.print_string w fuel 0 s = Done tt s' /\ wrote s s' (fmt_alt_x 0)) /\
  (0 <= fd s -> byte_at w (p + Z.of_nat (List.length cs)) = Some 0 ->
   Z.of_nat (List.length cs) <= MAX_STRING_LEN ->
   exists s', Probe.print_string w fuel p s = Done tt s' /\
              wrote s s' (dquote ++ chars cs ++ dquote)) /\
  (0 <= fd s -> byte_at w (p + Z.of_nat (List.length cs)) = Some 0 ->
   MAX_STRING_LEN < Z.of_nat (List.length cs) ->
   exists s', Probe.print_string w fuel p s = Done tt s' /\
              wrote s s' (dquote ++ chars (firstn (Z.to_nat MAX_STRING_LEN) cs)
                                 ++ "..." ++ dquote)) /\
  (breaks_string w (p + Z.of_nat (List.length cs)) ->
   exists s', Probe.print_string w fuel p s = Done tt s' /\ wrote s s' (fmt_alt_x p)).
Proof.
  intros Hp Hrun Hmax Hfuel.
  assert (Quoted : 0 <= fd s -> byte_at w (p + Z.of_nat (List.length cs)) = Some 0 ->
            exists s', Probe.print_string w fuel p s = Done tt s' /\
              wrote s s' (dquote ++ chars (firstn (Z.to_nat MAX_STRING_LEN) cs) ++
                          (if MAX_STRING_LEN <? Z.of_nat (List.length cs)
                           then "..." else "") ++ dquote)).
  { intros Hfd Hend.
    destruct (probe_scan_length w p cs fuel s) as (s1 & W1 & E1); try assumption.
    unfold Probe.print_string. unfold bind at 1. rewrite E1.
    unfold bind at 1, fprintf at 1.
    destruct (print_chars_run w p (Z.to_nat MAX_STRING_LEN) cs 0 (write_out dquote s1)
                (Z.of_nat (List.length cs))) as (s2 & W2 & E2).
    { now rewrite Z.add_0_r. }
    { reflexivity. }
    unfold bind at 1. rewrite E2. cbn [Z.add].
    set (i := Z.of_nat (Nat.min (Z.to_nat MAX_STRING_LEN) (List.length cs))).
    assert (Hi : i = Z.min MAX_STRING_LEN (Z.of_nat (List.length cs))).
    { unfold i, MAX_STRING_LEN. lia. }
    assert (Ecut : (i >=? MAX_STRING_LEN) && (i <? Z.of_nat (List.length cs))
                   = (MAX_STRING_LEN <? Z.of_nat (List.length cs))).
    { unfold MAX_STRING_LEN in *.
      destruct (Z.geb_spec i 25), (Z.ltb_spec i (Z.of_nat (List.length cs))),
        (Z.ltb_spec 25 (Z.of_nat (List.length cs))); cbn; try reflexivity; lia. }
    rewrite Ecut.
    assert (W12 : wrote s s2 (dquote ++ chars (firstn (Z.to_nat MAX_STRING_LEN) cs))).
    { eapply wrote_trans; [| exact W2].
      eapply wrote_nil_trans; [exact W1 | apply wrote_write_out]. }
    destruct (MAX_STRING_LEN <? Z.of_nat (List.length cs)).
    - eexists. split; [reflexivity |].
      rewrite <- append_assoc.
      eapply wrote_trans; [exact W12 |].
      eapply wrote_trans; apply wrote_write_out.
    - eexists. split; [reflexivity |].
      rewrite <- append_assoc.
      eapply wrote_trans; [exact W12 |].
      cbn [append]. apply wrote_write_out. }
  split; [| split; [| split]].
  - eexists. split; [reflexivity | apply wrote_write_out].
  - intros Hfd Hend Hle. destruct (Quoted Hfd Hend) as (s' & E & W).
    exists s'. split; [exact E |].
    destruct (Z.ltb_spec MAX_STRING_LEN (Z.of_nat (List.length cs))); [lia |].
    rewrite firstn_all2 in W by (unfold MAX_STRING_LEN in *; lia). exact W.
  - intros Hfd Hend Hgt. destruct (Quoted Hfd Hend) as (s' & E & W).
    exists s'. split; [exact E |].
    destruct (Z.ltb_spec MAX_STRING_LEN (Z.of_nat (List.length cs))); [exact W | lia].
  - intros Hbreak.
    destruct (probe_scan_break w p cs fuel s) as (s1 & W1 & E1); try assumption.
    unfold Probe.print_string. unfold bind at 1. rewrite E1.
    eexists. split; [reflexivity |].
    eapply wrote_nil_trans; [exact W1 | apply wrote_write_out].
Qed.

Lemma print_string_rendering_witness :
  let w := demo_world (poke_str 3000 "hi" unmapped) 0 in
  exists s', Probe.print_string w 10 3000 initial = Done tt s' /\
             wrote initial s' (dquote ++ chars (bytes_of "hi") ++ dquote).
Proof.
  cbn zeta.
  destruct (print_string_rendering (demo_world (poke_str 3000 "hi" unmapped) 0)
              10 3000 (bytes_of "hi") initial) as (_ & Q & _).
  - lia.
  - vm_compute. tauto.
  - vm_compute. reflexivity.
  - vm_compute. lia.
  - apply Q; [vm_compute; discriminate | reflexivity | vm_compute; discriminate].
Defined.

(** ** C4: the loads of [print_string_array] *)

(** C4 fails on the code: [print_string_array] of [src/traceback/traceback.c]
    loads [arg_val[0]] without asking [isvalid]; for a non-null pointer to
    unmapped memory the load faults after the opening brace, and a traceback
    that meets such an argument ends in the fault. *)
Theorem print_string_array_loads_unprobed :
  word_at demo 5000 = None /\
  Probe.print_string_array demo 10 5000 initial =
    Fault (log_read 5000 (write_out "{" initial)) /\
  (exists s, Probe.traceback (demo_world wild_array_mem 1000) 100 100 initial = Fault s /\
             hd 0 (reads s) = 5000).
Proof.
  split; [reflexivity |]. split; [reflexivity |].
  eexists. split; [vm_compute; reflexivity | reflexivity].
Qed.

(** The fault-interception revision answers that fault, but not every one:
    it loads the element past the cap after [is_string_print] has refilled
    [jump_to], so a fault there finds the checkpoint of a call that has
    returned, and no [sigsetjmp] of the callers takes it. *)
Lemma intercept_cap_load_finds_stale_checkpoint :
  let w := demo_world full_array_mem 0 in
  word_at w (3100 + 4 * 3) = None /\
  exists s, Intercept.print_string_array w 10 3100 initial = Fault s /\
            jump_to s = J_is_string_print /\ hd 0 (reads s) = 3112.
Proof.
  cbn zeta. split; [reflexivity |].
  eexists. split; [vm_compute; reflexivity | split; reflexivity].
Qed.

(** ** C5: [print_string_array] *)

Lemma emitted_refl s : emitted s s "".
Proof. split; try reflexivity. now rewrite append_nil_r. Qed.

Lemma emitted_trans s1 s2 s3 t u :
  emitted s1 s2 t -> emitted s2 s3 u -> emitted s1 s3 (t ++ u).
Proof.
  intros [A1 A2 A3] [B1 B2 B3]. split; try congruence.
  rewrite B1, A1. apply append_assoc.
Qed.

Lemma wrote_emitted s s' t : wrote s s' t -> emitted s s' t.
Proof. intros [A B C D]. split; assumption. Qed.

Lemma emitted_nil_trans s1 s2 s3 t :
  emitted s1 s2 "" -> emitted s2 s3 t -> emitted s1 s3 t.
Proof. intros A B. exact (emitted_trans _ _ _ _ _ A B). Qed.

Lemma emitted_trans_nil s1 s2 s3 t :
  emitted s1 s2 t -> emitted s2 s3 "" -> emitted s1 s3 t.
Proof.
  intros A B. rewrite <- (append_nil_r t). exact (emitted_trans _ _ _ _ _ A B).
Qed.

Lemma emitted_set_jump c s : emitted s (set_jump c s) "".
Proof. split; try reflexivity. cbn. now rewrite append_nil_r. Qed.

Lemma emitted_log_read a s : emitted s (log_read a s) "".
Proof. apply wrote_emitted, wrote_log_read. Qed.

Lemma emitted_write_out t s : emitted s (write_out t s) t.
Proof. apply wrote_emitted, wrote_write_out. Qed.

Section ArrayLoop.

Variable w : world.
Variable print_string : Z -> M unit.
Variable fdv : Z.
Variable p : Z.

(** The printing loop over the leading non-null elements [es]: [v] is the
    word after them, null unless the cap ends the loop first. *)
Lemma array_loop_run : forall n es ts i v s,
  Forall2 (string_rule print_string fdv) es ts ->
  array_at w (p + 4 * i) es -> fd s = fdv ->
  word_at w (p + 4 * (i + Z.of_nat (List.length es))) = Some v ->
  (List.length es <= n)%nat -> ((List.length es < n)%nat -> v = 0) ->
  exists s', emitted s s' (joined i ts) /\
    print_string_array_loop w print_string n i p s =
      Done (i + Z.of_nat (List.length es)) s'.
Proof.
  induction n as [| n IH]; intros es ts i v s Hts Harr Hfd Hv Hn Hnull.
  - destruct es; [| cbn in Hn; lia]. inversion Hts; subst.
    cbn [List.length Z.of_nat] in *. rewrite Z.add_0_r in *.
    cbn [print_string_array_loop]. unfold bind at 1, load32 at 1. rewrite Hv.
    eexists. split; [| reflexivity]. apply emitted_log_read.
  - cbn [print_string_array_loop]. destruct Hts as [| e t es ts Ht Hts].
    + cbn [List.length Z.of_nat] in *. rewrite Z.add_0_r in *.
      unfold bind at 1, load32 at 1. rewrite Hv.
      rewrite (Hnull ltac:(lia)). cbn [Z.eqb].
      eexists. split; [| reflexivity]. apply emitted_log_read.
    + destruct Harr as (He & Hnz & Harr). cbn [List.length] in *.
      unfold bind at 1, load32 at 1. rewrite He.
      destruct (Z.eqb_spec e 0); [contradiction |].
      set (s1 := log_read (wrap (p + 4 * i)) s).
      unfold bind at 1.
      assert (Sep : exists s2, (if 0 <? i then fprintf ", " else ret tt) s1 = Done tt s2 /\
                               emitted s1 s2 (if 0 <? i then ", " else "")).
      { destruct (0 <? i); eexists; (split; [reflexivity |]);
          [apply emitted_write_out | apply emitted_refl]. }
      destruct Sep as (s2 & E2 & W2). rewrite E2.
      unfold bind at 1.
      destruct (Ht s2) as (s3 & E3 & W3).
      { rewrite (e_fd _ _ _ W2). exact Hfd. }
      rewrite E3.
      destruct (IH es ts (i + 1) v s3) as (s4 & W4 & E4); try assumption.
      * now replace (p + 4 * (i + 1)) with (p + 4 * i + 4) by lia.
      * rewrite (e_fd _ _ _ W3), (e_fd _ _ _ W2). exact Hfd.
      * rewrite <- Hv. f_equal. lia.
      * lia.
      * intros L. apply Hnull. lia.
      * exists s4. split.
        -- cbn [joined].
           eapply emitted_nil_trans; [apply emitted_log_read |].
           eapply emitted_trans; [exact W2 |].
           eapply emitted_trans; [exact W3 | exact W4].
        -- rewrite E4. f_equal. lia.
Qed.

(** The trial loop of the interception revision over the same elements. *)
Lemma try_elements_run : forall n es i v s,
  array_at w (p + 4 * i) es ->
  word_at w (p + 4 * (i + Z.of_nat (List.length es))) = Some v ->
  (List.length es <= n)%nat -> ((List.length es < n)%nat -> v = 0) ->
  exists s', wrote s s' "" /\ Intercept.try_elements w n i p s = Done tt s'.
Proof.
  induction n as [| n IH]; intros es i v s Harr Hv Hn Hnull.
  - exists s. split; [apply wrote_refl | reflexivity].
  - cbn [Intercept.try_elements]. destruct es as [| e es].
    + cbn [List.length Z.of_nat] in *. rewrite Z.add_0_r in *.
      unfold bind at 1, load32 at 1. rewrite Hv.
      rewrite (Hnull ltac:(lia)). cbn [Z.eqb].
      eexists. split; [| reflexivity]. apply wrote_log_read.
    + destruct Harr as (He & Hnz & Harr). cbn [List.length] in *.
      unfold bind at 1, load32 at 1. rewrite He.
      destruct (Z.eqb_spec e 0); [contradiction |].
      destruct (IH es (i + 1) v (log_read (wrap (p + 4 * i)) s)) as (s' & W & E).
      * now replace (p + 4 * (i + 1)) with (p + 4 * i + 4) by lia.
      * rewrite <- Hv. f_equal. lia.
      * lia.
      * intros L. apply Hnull. lia.
      * exists s'. split; [| exact E].
        eapply wrote_nil_trans; [apply wrote_log_read | exact W].
Qed.

(** What both revisions run after the opening brace. *)
Lemma array_tail_run es ts v s :
  Forall2 (string_rule print_string fdv) es ts ->
  array_at w p es -> fd s = fdv ->
  word_at w (p + 4 * Z.of_nat (List.length es)) = Some v ->
  Z.of_nat (List.length es) <= MAX_ARRAY_LEN ->
  (Z.of_nat (List.length es) < MAX_ARRAY_LEN -> v = 0) ->
  exists s',
    emitted s s' (comma_join ts ++ (if v =? 0 then "" else ", ...") ++ "}") /\
    (i <- print_string_array_loop w print_string (Z.to_nat MAX_ARRAY_LEN) 0 p ;;
     e <- load32 w (p + 4 * i) ;;
     (if negb (e =? 0) && (i >=? MAX_ARRAY_LEN) then fprintf ", ..." else ret tt) ;;;
     fprintf "}") s = Done tt s'.
Proof.
  intros Hts Harr Hfd Hv Hle Hnull. unfold MAX_ARRAY_LEN in *.
  destruct (array_loop_run (Z.to_nat 3) es ts 0 v s) as (s1 & W1 & E1);
    try assumption; try lia.
  { now rewrite Z.mul_0_r, Z.add_0_r. }
  unfold bind at 1. rewrite E1. cbn [Z.add].
  unfold bind at 1, load32 at 1. rewrite Hv.
  set (s2 := log_read _ s1).
  assert (W2 : emitted s s2 (comma_join ts)).
  { eapply emitted_trans_nil; [exact W1 | apply emitted_log_read]. }
  destruct (Z.eqb_spec v 0) as [-> | Hnz]; cbn [negb andb].
  - eexists. split; [| reflexivity].
    eapply emitted_trans; [exact W2 |]. cbn [append]. apply emitted_write_out.
  - destruct (Z.geb_spec (Z.of_nat (List.length es)) 3) as [_ | L];
      [| specialize (Hnull L); contradiction].
    eexists. split; [| reflexivity].
    eapply emitted_trans; [exact W2 |].
    eapply emitted_trans; apply emitted_write_out.
Qed.

End ArrayLoop.

Lemma probe_array_run w fuel fdv p es ts v s :
  p <> 0 -> fd s = fdv -> array_at w p es ->
  Forall2 (string_rule (Probe.print_string w fuel) fdv) es ts ->
  word_at w (p + 4 * Z.of_nat (List.length es)) = Some v ->
  Z.of_nat (List.length es) <= MAX_ARRAY_LEN ->
  (Z.of_nat (List.length es) < MAX_ARRAY_LEN -> v = 0) ->
  exists s', Probe.print_string_array w fuel p s = Done tt s' /\
    emitted s s' ("{" ++ comma_join ts ++ (if v =? 0 then "" else ", ...") ++ "}").
Proof.
  intros Hp Hfd Harr Hts Hv Hle Hnull.
  unfold Probe.print_string_array. destruct (Z.eqb_spec p 0); [contradiction |].
  unfold bind at 1, fprintf at 1.
  destruct (array_tail_run w (Probe.print_string w fuel) fdv p es ts v (write_out "{" s))
    as (s' & W & E); try assumption.
  exists s'. split; [exact E |].
  eapply emitted_trans; [apply emitted_write_out | exact W].
Qed.

Lemma intercept_array_run w fuel fdv p es ts v s :
  p <> 0 -> fd s = fdv -> array_at w p es ->
  Forall2 (string_rule (Intercept.print_string w fuel) fdv) es ts ->
  word_at w (p + 4 * Z.of_nat (List.length es)) = Some v ->
  Z.of_nat (List.length es) <= MAX_ARRAY_LEN ->
  (Z.of_nat (List.length es) < MAX_ARRAY_LEN -> v = 0) ->
  exists s', Intercept.print_string_array w fuel p s = Done tt s' /\
    emitted s s' ("{" ++ comma_join ts ++ (if v =? 0 then "" else ", ...") ++ "}").
Proof.
  intros Hp Hfd Harr Hts Hv Hle Hnull.
  unfold Intercept.print_string_array, sigsetjmp, resume.
  destruct (Z.eqb_spec p 0); [contradiction |].
  unfold bind at 1.
  destruct (try_elements_run w p (Z.to_nat MAX_ARRAY_LEN) es 0 v
              (set_jump J_print_string_array s)) as (s1 & W1 & E1).
  { now rewrite Z.mul_0_r, Z.add_0_r. }
  { exact Hv. }
  { unfold MAX_ARRAY_LEN in *. lia. }
  { unfold MAX_ARRAY_LEN in *. intros L. apply Hnull. lia. }
  rewrite E1. unfold bind at 1, fprintf at 1.
  destruct (array_tail_run w (Intercept.print_string w fuel) fdv p es ts v
              (write_out "{" s1)) as (s' & W & E); try assumption.
  { cbn. rewrite (w_fd _ _ _ W1). exact Hfd. }
  rewrite E. exists s'. split; [reflexivity |].
  eapply emitted_nil_trans; [apply emitted_set_jump |].
  eapply emitted_nil_trans; [apply wrote_emitted; exact W1 |].
  eapply emitted_trans; [apply emitted_write_out | exact W].
Qed.

(** C5.  In both revisions [print_string_array] writes exactly [0x0] for a
    null array pointer; for an array whose leading non-null entries number at
    most [MAX_ARRAY_LEN] and are followed by a null entry, it writes an
    opening brace, what [print_string] writes for each of those entries in
    turn with [", "] between them, and a closing brace; for an array whose
    first [MAX_ARRAY_LEN] entries and the one after them are non-null, it
    writes the first [MAX_ARRAY_LEN] renderings followed by [", ..."], all
    inside the braces. *)
Theorem print_string_array_rendering w fuel fdv :
  array_rule w (Probe.print_string w fuel) (Probe.print_string_array w fuel) fdv /\
  array_rule w (Intercept.print_string w fuel) (Intercept.print_string_array w fuel) fdv.
Proof.
  split; (split; [| split]).
  - intros s. eexists. split; [reflexivity | apply emitted_write_out].
  - intros p es ts s Hp Hfd Harr Hts Hle Hend.
    destruct (probe_array_run w fuel fdv p es ts 0 s) as (s' & E & W); auto.
    exists s'. split; [exact E | exact W].
  - intros p es ts e s Hp Hfd Harr Hts Hlen Hend Hnz.
    destruct (probe_array_run w fuel fdv p es ts e s) as (s' & E & W); auto; try lia.
    exists s'. split; [exact E |].
    destruct (Z.eqb_spec e 0); [contradiction | exact W].
  - intros s. eexists. split; [reflexivity |].
    eapply emitted_nil_trans; [apply emitted_set_jump | apply emitted_write_out].
  - intros p es ts s Hp Hfd Harr Hts Hle Hend.
    destruct (intercept_array_run w fuel fdv p es ts 0 s) as (s' & E & W); auto.
    exists s'. split; [exact E | exact W].
  - intros p es ts e s Hp Hfd Harr Hts Hlen Hend Hnz.
    destruct (intercept_array_run w fuel fdv p es ts e s) as (s' & E & W); auto; try lia.
    exists s'. split; [exact E |].
    destruct (Z.eqb_spec e 0); [contradiction | exact W].
Qed.

Lemma print_string_array_rendering_witness :
  exists s', Probe.print_string_array demo 10 3100 initial = Done tt s' /\
    emitted initial s'
      ("{" ++ comma_join [quoted "hi"; quoted "there"] ++ "}") /\
  exists s'', Intercept.print_string_array demo 10 3100 initial = Done tt s'' /\
    emitted initial s''
      ("{" ++ comma_join [quoted "hi"; quoted "there"] ++ "}").
Proof.
  destruct (print_string_array_rendering demo 10 0) as [(_ & P & _) (_ & I & _)].
  destruct (P 3100 [3000; 3010]
              [quoted "hi"; quoted "there"] initial)
    as (s' & E & W).
  - lia.
  - reflexivity.
  - vm_compute. repeat split; discriminate.
  - repeat constructor; intros [o e r t f j] Hfd; cbn in Hfd; subst f;
      (eexists; split; [vm_compute; reflexivity |]);
      (split; cbn; rewrite ?append_assoc; reflexivity).
  - vm_compute. discriminate.
  - reflexivity.
  - exists s'. split; [exact E |]. split; [exact W |].
    destruct (I 3100 [3000; 3010]
                [quoted "hi"; quoted "there"] initial)
      as (s'' & E' & W').
    + lia.
    + reflexivity.
    + vm_compute. repeat split; discriminate.
    + repeat constructor; intros [o e r t f j] Hfd; cbn in Hfd; subst f;
        (eexists; split; [vm_compute; reflexivity |]);
        (split; cbn; rewrite ?append_assoc; reflexivity).
    + vm_compute. discriminate.
    + reflexivity.
    + exists s''. split; [exact E' | exact W'].
Defined.


(** ** C6: when the walk stops *)

Lemma bind_assoc {A B C} (m : M A) (f : A -> M B) (g : B -> M C) (s : state) :
  bind (bind m f) g s = bind m (fun x => bind (f x) g) s.
Proof. unfold bind. destruct (m s); reflexivity. Qed.

(** Strips the recorded loads and table reads off the later state. *)
Ltac peel_logs :=
  repeat (eapply wrote_trans_nil;
          [| first [apply wrote_log_read | apply wrote_log_tbl]]);
  apply wrote_refl.

Lemma frame_line_then {A} print_arguments f old_ebp (k : M A) s :
  (frame_line print_arguments f old_ebp ;;; k) s =
  (fprintf ("Function " ++ name f ++ "(") ;;;
   print_arguments f old_ebp ;;;
   fprintf ("), in" ++ newline) ;;; k) s.
Proof.
  unfold frame_line, bind, fprintf.
  destruct (print_arguments f old_ebp (write_out _ s)); reflexivity.
Qed.

(** C6, as stated, fails on the code: the fault-interception revision meets
    a frame whose return address resolves to [_start], writes its line and
    walks on to the next frame, and stops only at the null frame pointer;
    the probe revision, handed a null saved frame pointer, stops with the
    corruption diagnostic. *)
Lemma intercept_walks_past_start :
  word_at demo (1200 + 4) = Some 4100 /\
  fst (Intercept.get_index demo (sint 4100)) = 0 /\
  name (funct_at demo 0) = "_start"%string /\
  output (Intercept.traceback_loop demo 100 100 1200 initial) =
    Some ("Function _start(void), in" ++ newline ++
          "Function 0x4d(...), in" ++ newline)%string /\
  word_at demo 1300 = Some 0 /\
  output (Probe.traceback_loop demo 100 100 1300 initial) = Some fatal_line.
Proof.
  split; [reflexivity |]. split; [vm_compute; reflexivity |].
  split; [reflexivity |]. split; [vm_compute; reflexivity |].
  split; [reflexivity | vm_compute; reflexivity].
Qed.

(** C6 (amended).  A turn of the walk at a frame holding the saved frame
    pointer [old] and the return address [ra].

    In [src/traceback/traceback.c]: when [old <= ebp] (a null [old]
    included) the walk stops with the corruption diagnostic; otherwise, when
    the return address resolves, the walk stops without writing anything if
    [is_main] answers 1 -- the entry at the exit index is named [exit] or the
    resolved one [_start] -- and in every other case writes the frame line
    and takes the next turn at [old].  The frame pointer itself is never
    tested for null.

    In the fault-interception revision: a null frame pointer stops the walk
    without writing anything; a frame that is not corrupt and whose return
    address resolves always gets its line and the walk takes the next turn at
    [old], whatever the resolved name and the exit lookup are (a fault during
    the turn comes back to the turn's [sigsetjmp] and ends the walk). *)
Theorem walker_turn w fuel steps ebp old ra operand s :
  word_at w ebp = Some old -> word_at w (ebp + 4) = Some ra ->
  (* side-effect-probe revision *)
  (old <= ebp ->
   Probe.traceback_loop w fuel (S steps) ebp s =
     Done tt (write_out fatal_line (log_read (wrap (ebp + 4)) (log_read (wrap ebp) s)))) /\
  (ebp < old -> 0 <= fst (Probe.get_index w (sint ra)) ->
   word_at w (sint ra + 4) = Some operand ->
   let index := fst (Probe.get_index w (sint ra)) in
   let exit := fst (Probe.get_index w (exit_address (sint ra) operand)) in
   (0 <= exit ->
    fst (Probe.is_main w index exit) =
      String.eqb (name (funct_at w exit)) "exit"
      || String.eqb (name (funct_at w index)) "_start") /\
   exists s1, wrote s s1 "" /\
     Probe.traceback_loop w fuel (S steps) ebp s =
       if fst (Probe.is_main w index exit) then Done tt s1
       else (frame_line (Probe.print_arguments w fuel) (funct_at w index) old ;;;
             Probe.traceback_loop w fuel steps old) s1) /\
  (* fault-interception revision *)
  Intercept.traceback_loop w fuel (S steps) 0 s = Done tt (set_jump J_traceback s) /\
  (ebp <> 0 -> old = 0 \/ ebp < old -> 0 <= fst (Intercept.get_index w (sint ra)) ->
   word_at w (sint ra + 4) = Some operand ->
   let index := fst (Intercept.get_index w (sint ra)) in
   exists s1, emitted s s1 "" /\
     Intercept.traceback_loop w fuel (S steps) ebp s =
       resume J_traceback (ret tt)
         ((frame_line (Intercept.print_arguments w fuel) (funct_at w index) old ;;;
           Intercept.traceback_loop w fuel steps old) s1)).
Proof.
  intros Hold Hra.
  pose proof (word_at_range _ _ _ Hold) as Ro.
  split; [| split; [| split]].
  - intros Hle. cbn [Probe.traceback_loop].
    unfold bind at 1, load32 at 1. rewrite Hold.
    unfold bind at 1, load32 at 1. rewrite Hra.
    destruct (Z.geb_spec ebp old); [reflexivity | lia].
  - intros Hlt Hres Hop. cbn zeta. split.
    + intros _. unfold Probe.is_main.
      destruct (String.eqb (name (funct_at w _)) "exit"); reflexivity.
    + cbn [Probe.traceback_loop].
      unfold bind at 1, load32 at 1. rewrite Hold.
      unfold bind at 1, load32 at 1. rewrite Hra.
      destruct (Z.geb_spec ebp old); [lia |].
      unfold bind at 1, with_tbl at 1.
      destruct (Z.ltb_spec (fst (Probe.get_index w (sint ra))) 0); [lia |].
      unfold bind at 1, with_tbl at 1. cbn [fst snd].
      unfold bind at 1, load32 at 1. rewrite Hop.
      unfold bind at 1, with_tbl at 1. fold (exit_address (sint ra) operand).
      unfold bind at 1, with_tbl at 1.
      eexists. split; cycle 1.
      * destruct (fst (Probe.is_main w _ _)); [reflexivity |].
        rewrite frame_line_then. reflexivity.
      * peel_logs.
  - cbn [Intercept.traceback_loop]. unfold sigsetjmp. cbn [Z.eqb]. reflexivity.
  - intros Hnz Hok Hres Hop. cbn zeta. cbn [Intercept.traceback_loop]. unfold sigsetjmp.
    destruct (Z.eqb_spec ebp 0); [contradiction |].
    unfold bind at 1, load32 at 1. rewrite Hold.
    unfold bind at 1, load32 at 1. rewrite Hra.
    assert (negb (old =? 0) && (ebp >=? old) = false) as ->.
    { destruct (Z.eqb_spec old 0); [reflexivity |].
      destruct (Z.geb_spec ebp old); [lia | reflexivity]. }
    unfold bind at 1, with_tbl at 1.
    destruct (Z.ltb_spec (fst (Intercept.get_index w (sint ra))) 0); [lia |].
    rewrite bind_assoc. unfold bind at 1, with_tbl at 1. cbn [fst snd].
    rewrite bind_assoc. unfold bind at 1, load32 at 1. rewrite Hop.
    rewrite bind_assoc. unfold bind at 1, with_tbl at 1.
    eexists. split; cycle 1.
    { unfold frame_line. reflexivity. }
    eapply emitted_nil_trans; [apply emitted_set_jump |].
    apply wrote_emitted. peel_logs.
Qed.

Lemma walker_turn_witness :
  (exists s1, wrote initial s1 "" /\
     Probe.traceback_loop demo 100 1 1000 initial =
       (frame_line (Probe.print_arguments demo 100) (funct_at demo 2) 1100 ;;;
        Probe.traceback_loop demo 100 0 1100) s1) /\
  Intercept.traceback_loop demo 100 1 0 initial = Done tt (set_jump J_traceback initial).
Proof.
  destruct (walker_turn demo 100 0 1000 1100 4410 1000 initial
              ltac:(reflexivity) ltac:(reflexivity))
    as (_ & P & I & _).
  split; [| exact I].
  destruct (P ltac:(lia) ltac:(vm_compute; discriminate) ltac:(reflexivity))
    as (_ & s1 & W & E).
  exists s1. split; [exact W | exact E].
Defined.

(** ** C8: the text written does not depend on the state a run starts in *)

Lemma same_text_refl s1 s2 : same_text s1 s2 s1 s2.
Proof. exists ""%string. now rewrite !append_nil_r. Qed.

Lemma same_text_trans s1 s2 s1' s2' s1'' s2'' :
  same_text s1 s2 s1' s2' -> same_text s1' s2' s1'' s2'' -> same_text s1 s2 s1'' s2''.
Proof.
  intros (t & A1 & A2) (u & B1 & B2). exists (t ++ u)%string.
  rewrite B1, B2, A1, A2, !append_assoc. split; reflexivity.
Qed.

Lemma agree_after {A} R s1 s2 s1' s2' (r1 r2 : result A) :
  same_text s1 s2 s1' s2' -> agree R s1' s2' r1 r2 -> agree R s1 s2 r1 r2.
Proof.
  intros T. destruct r1, r2; cbn; try tauto.
  - intros (E & HR & T'). repeat split; try assumption. eapply same_text_trans; eauto.
  - intros (HR & T'). split; [assumption |]. eapply same_text_trans; eauto.
  - intros (HR & T'). split; [assumption |]. eapply same_text_trans; eauto.
Qed.

Section Uniform.

Variable R : state -> state -> Prop.
Hypothesis R_write : forall t s1 s2, R s1 s2 -> R (write_out t s1) (write_out t s2).
Hypothesis R_read : forall a b s1 s2, R s1 s2 -> R (log_read a s1) (log_read b s2).
Hypothesis R_tbl : forall l l' s1 s2, R s1 s2 -> R (log_tbl l s1) (log_tbl l' s2).

Lemma uniform_ret {A} (a : A) : uniform R (ret a).
Proof. intros s1 s2 H. cbn. repeat split; [assumption | apply same_text_refl]. Qed.

Lemma uniform_bind {A B} (m : M A) (f : A -> M B) :
  uniform R m -> (forall a, uniform R (f a)) -> uniform R (bind m f).
Proof.
  intros Hm Hf s1 s2 H. specialize (Hm s1 s2 H). unfold bind.
  destruct (m s1) as [a s1' | s1' | s1' |], (m s2) as [b s2' | s2' | s2' |];
    cbn in Hm |- *; try tauto.
  destruct Hm as (<- & HR & T). eapply agree_after; [exact T |]. now apply Hf.
Qed.

Lemma uniform_fprintf t : uniform R (fprintf t).
Proof.
  intros s1 s2 H. cbn. repeat split; [now apply R_write |].
  exists t. split; reflexivity.
Qed.

Lemma uniform_out_of_fuel {A} : uniform R (@out_of_fuel A).
Proof. intros s1 s2 H. exact I. Qed.

Lemma uniform_load8 w a : uniform R (load8 w a).
Proof.
  intros s1 s2 H. unfold load8. destruct (byte_at w a); cbn;
    repeat split; try (now apply R_read);
    exists ""%string; cbn; now rewrite !append_nil_r.
Qed.

Lemma uniform_load32 w a : uniform R (load32 w a).
Proof.
  intros s1 s2 H. unfold load32. destruct (word_at w a); cbn;
    repeat split; try (now apply R_read);
    exists ""%string; cbn; now rewrite !append_nil_r.
Qed.

Lemma uniform_with_tbl {A} (r : A * list Z) : uniform R (with_tbl r).
Proof.
  intros s1 s2 H. cbn. repeat split; [now apply R_tbl |].
  exists ""%string. cbn. now rewrite !append_nil_r.
Qed.

Lemma uniform_if {A} (b : bool) (m1 m2 : M A) :
  uniform R m1 -> uniform R m2 -> uniform R (if b then m1 else m2).
Proof. destruct b; auto. Qed.

Hint Resolve uniform_ret uniform_fprintf uniform_load8 uniform_load32
     uniform_with_tbl uniform_out_of_fuel : core.

Lemma uniform_load64 w a : uniform R (load64 w a).
Proof. unfold load64. repeat (apply uniform_bind; [auto | intros]). auto. Qed.

Lemma uniform_print_chars w arg_val length : forall n i,
  uniform R (print_chars w n i arg_val length).
Proof.
  induction n as [| n IH]; intros i; cbn [print_chars]; [auto |].
  apply uniform_if; [| auto].
  repeat (apply uniform_bind; [auto | intros]). apply IH.
Qed.

Section Printers.

Variable w : world.
Variable print_string print_string_array : Z -> M unit.
Hypothesis uniform_print_string : forall p, uniform R (print_string p).
Hypothesis uniform_print_string_array : forall p, uniform R (print_string_array p).

Lemma uniform_print_string_array_loop arg_val : forall n i,
  uniform R (print_string_array_loop w print_string n i arg_val).
Proof.
  induction n as [| n IH]; intros i; cbn [print_string_array_loop].
  - apply uniform_bind; [auto | intros; auto].
  - apply uniform_bind; [auto | intros p].
    apply uniform_if; [auto |].
    apply uniform_bind; [apply uniform_if; auto | intros].
    apply uniform_bind; [auto | intros]. apply IH.
Qed.

Lemma uniform_print_argument arg ebp :
  uniform R (print_argument w print_string print_string_array arg ebp).
Proof.
  unfold print_argument. destruct (type arg);
    repeat first [apply uniform_bind; [auto using uniform_load64 | intros]
                 | apply uniform_if];
    auto.
Qed.

Lemma uniform_print_arguments_loop function ebp : forall n index,
  uniform R (print_arguments_loop w print_string print_string_array
               n index function ebp).
Proof.
  induction n as [| n IH]; intros index; cbn [print_arguments_loop]; [auto |].
  apply uniform_if; [| auto].
  apply uniform_bind; [apply uniform_if; auto | intros].
  apply uniform_bind; [apply uniform_print_argument | intros]. apply IH.
Qed.

Lemma uniform_print_arguments function ebp :
  uniform R (print_arguments w print_string print_string_array function ebp).
Proof.
  unfold print_arguments.
  apply uniform_bind; [apply uniform_print_arguments_loop | intros].
  apply uniform_if; auto.
Qed.

End Printers.

End Uniform.

Lemma agree_weaken {A} (R R' : state -> state -> Prop) s1 s2 (r1 r2 : result A) :
  (forall a b, R a b -> R' a b) -> agree R s1 s2 r1 r2 -> agree R' s1 s2 r1 r2.
Proof. intros H. destruct r1, r2; cbn; try tauto; intuition auto. Qed.

Lemma same_fd_write t s1 s2 : same_fd s1 s2 -> same_fd (write_out t s1) (write_out t s2).
Proof. exact (fun H => H). Qed.
Lemma same_fd_read a b s1 s2 : same_fd s1 s2 -> same_fd (log_read a s1) (log_read b s2).
Proof. exact (fun H => H). Qed.
Lemma same_fd_tbl l l' s1 s2 : same_fd s1 s2 -> same_fd (log_tbl l s1) (log_tbl l' s2).
Proof. exact (fun H => H). Qed.

Lemma same_jump_write t s1 s2 :
  same_jump_to s1 s2 -> same_jump_to (write_out t s1) (write_out t s2).
Proof. exact (fun H => H). Qed.
Lemma same_jump_read a b s1 s2 :
  same_jump_to s1 s2 -> same_jump_to (log_read a s1) (log_read b s2).
Proof. exact (fun H => H). Qed.
Lemma same_jump_tbl l l' s1 s2 :
  same_jump_to s1 s2 -> same_jump_to (log_tbl l s1) (log_tbl l' s2).
Proof. exact (fun H => H). Qed.

(** Closes a goal [uniform R m] over [bind], [if] and the primitives, given
    the three preservation lemmas of [R]. *)
Ltac uniform_steps W Rd Tb :=
  repeat first
    [ apply (uniform_bind _); intros
    | apply (uniform_if _)
    | apply (uniform_ret _)
    | apply (uniform_fprintf _ W)
    | apply (uniform_load8 _ Rd)
    | apply (uniform_load32 _ Rd)
    | apply (uniform_with_tbl _ Tb)
    | apply (uniform_out_of_fuel _)
    | apply (uniform_print_chars _ W Rd) ].

Section ProbeUniform.

Variable w : world.
Variable fuel : nat.

Lemma probe_uniform_isvalid a : uniform same_fd (Probe.isvalid w a).
Proof.
  intros s1 s2 H. unfold Probe.isvalid. cbn. unfold same_fd in H. rewrite H.
  repeat split; [assumption | apply same_text_refl].
Qed.

Lemma probe_uniform_scan arg_val : forall n len,
  uniform same_fd (Probe.is_string_print_loop w n arg_val len).
Proof.
  induction n as [| n IH]; intros len; cbn [Probe.is_string_print_loop].
  - apply uniform_out_of_fuel.
  - apply uniform_bind; [apply probe_uniform_isvalid | intros ok].
    apply uniform_if; [apply uniform_ret |].
    apply uniform_bind; [apply (uniform_load8 _ same_fd_read) | intros c].
    repeat (apply uniform_if; [apply uniform_ret |]). apply IH.
Qed.

Lemma probe_uniform_print_string p : uniform same_fd (Probe.print_string w fuel p).
Proof.
  unfold Probe.print_string, Probe.is_string_print.
  apply uniform_bind; [apply uniform_if; [apply uniform_ret | apply probe_uniform_scan] |].
  intros [length |]; uniform_steps same_fd_write same_fd_read same_fd_tbl.
Qed.

Lemma probe_uniform_print_string_array p :
  uniform same_fd (Probe.print_string_array w fuel p).
Proof.
  unfold Probe.print_string_array.
  apply uniform_if; [apply (uniform_fprintf _ same_fd_write) |].
  apply uniform_bind; [apply (uniform_fprintf _ same_fd_write) | intros].
  apply uniform_bind;
    [apply (uniform_print_string_array_loop _ same_fd_write same_fd_read);
     apply probe_uniform_print_string | intros].
  uniform_steps same_fd_write same_fd_read same_fd_tbl.
Qed.

Lemma probe_uniform_loop : forall steps ebp,
  uniform same_fd (Probe.traceback_loop w fuel steps ebp).
Proof.
  induction steps as [| steps IH]; intros ebp; cbn [Probe.traceback_loop].
  - apply uniform_out_of_fuel.
  - apply uniform_bind; [apply (uniform_load32 _ same_fd_read) | intros old_ebp].
    apply uniform_bind; [apply (uniform_load32 _ same_fd_read) | intros ra].
    apply uniform_if; [apply (uniform_fprintf _ same_fd_write) |].
    apply uniform_bind; [apply (uniform_with_tbl _ same_fd_tbl) | intros index].
    apply uniform_if.
    + apply uniform_bind; [apply (uniform_fprintf _ same_fd_write) | intros; apply IH].
    + apply uniform_bind; [apply (uniform_with_tbl _ same_fd_tbl) | intros f].
      apply uniform_bind; [apply (uniform_load32 _ same_fd_read) | intros operand].
      apply uniform_bind; [apply (uniform_with_tbl _ same_fd_tbl) | intros exit].
      apply uniform_bind; [apply (uniform_with_tbl _ same_fd_tbl) | intros stop].
      apply uniform_if; [apply uniform_ret |].
      apply uniform_bind; [apply (uniform_fprintf _ same_fd_write) | intros].
      apply uniform_bind;
        [apply (uniform_print_arguments _ same_fd_write same_fd_read);
         [apply probe_uniform_print_string | apply probe_uniform_print_string_array]
        | intros].
      apply uniform_bind; [apply (uniform_fprintf _ same_fd_write) | intros; apply IH].
Qed.

Lemma probe_uniform_traceback steps :
  uniform_from any_states any_states (Probe.traceback w fuel steps).
Proof.
  intros s1 s2 _. unfold Probe.traceback.
  unfold bind at 1. unfold bind at 2. unfold set_fd.
  set (t1 := {| out := out s1; err := err s1; reads := reads s1; tbl := tbl s1;
                fd := open_ret w; jump_to := jump_to s1 |}).
  set (t2 := {| out := out s2; err := err s2; reads := reads s2; tbl := tbl s2;
                fd := open_ret w; jump_to := jump_to s2 |}).
  apply (agree_after _ s1 s2 t1 t2);
    [exists ""%string; cbn; now rewrite !append_nil_r |].
  apply (agree_weaken same_fd); [intros; exact I |].
  assert (H : same_fd t1 t2) by reflexivity. revert H. generalize t1 t2.
  change (uniform same_fd
            ((if open_ret w <? 0 then fprintf_stderr "open random file failed"
              else ret tt) ;;;
             Probe.traceback_loop w fuel steps (wrap (trace_init_ebp w)))).
  apply uniform_bind; [| intros; apply probe_uniform_loop].
  apply uniform_if; [| apply uniform_ret].
  intros a b H. cbn. repeat split; [exact H |].
  exists ""%string. cbn. now rewrite !append_nil_r.
Qed.

End ProbeUniform.

(** [sigsetjmp] refills [jump_to], so what follows it behaves alike from any
    two states. *)
Lemma uniform_sigsetjmp {A} c (direct resumed : M A) :
  uniform same_jump_to direct -> uniform same_jump_to resumed ->
  uniform_from any_states same_jump_to (sigsetjmp c direct resumed).
Proof.
  intros Hd Hr s1 s2 _. unfold sigsetjmp.
  assert (H : same_jump_to (set_jump c s1) (set_jump c s2)) by reflexivity.
  specialize (Hd _ _ H).
  apply (agree_after _ s1 s2 (set_jump c s1) (set_jump c s2));
    [exists ""%string; cbn; now rewrite !append_nil_r |].
  destruct (direct (set_jump c s1)) as [a t1 | t1 | t1 |],
           (direct (set_jump c s2)) as [b t2 | t2 | t2 |];
    cbn in Hd |- *; try tauto.
  destruct Hd as (HR & T). unfold same_jump_to in HR. rewrite HR.
  destruct (checkpoint_eqb (jump_to t2) c).
  - eapply agree_after; [exact T |]. apply Hr. exact HR.
  - cbn. split; assumption.
Qed.

Lemma uniform_from_any {A} R (m : M A) : uniform_from any_states R m -> uniform R m.
Proof. intros H s1 s2 _. apply H. exact I. Qed.

Section InterceptUniform.

Variable w : world.
Variable fuel : nat.

Lemma intercept_uniform_scan arg_val : forall n len,
  uniform same_jump_to (Intercept.is_string_print_loop w n arg_val len).
Proof.
  induction n as [| n IH]; intros len; cbn [Intercept.is_string_print_loop].
  - apply uniform_out_of_fuel.
  - apply uniform_bind; [apply (uniform_load8 _ same_jump_read) | intros c].
    repeat (apply uniform_if; [apply uniform_ret |]). apply IH.
Qed.

Lemma intercept_uniform_print_string p :
  uniform same_jump_to (Intercept.print_string w fuel p).
Proof.
  unfold Intercept.print_string, Intercept.is_string_print.
  apply uniform_bind.
  - apply uniform_from_any, uniform_sigsetjmp; [| apply uniform_ret].
    apply uniform_if; [apply uniform_ret | apply intercept_uniform_scan].
  - intros [length |]; uniform_steps same_jump_write same_jump_read same_jump_tbl.
Qed.

Lemma intercept_uniform_try arg_val : forall n i,
  uniform same_jump_to (Intercept.try_elements w n i arg_val).
Proof.
  induction n as [| n IH]; intros i; cbn [Intercept.try_elements].
  - apply uniform_ret.
  - apply uniform_bind; [apply (uniform_load32 _ same_jump_read) | intros p].
    apply uniform_if; [apply uniform_ret | apply IH].
Qed.

Lemma intercept_uniform_print_string_array p :
  uniform same_jump_to (Intercept.print_string_array w fuel p).
Proof.
  unfold Intercept.print_string_array.
  apply uniform_from_any, uniform_sigsetjmp;
    [| apply (uniform_fprintf _ same_jump_write)].
  apply uniform_if; [apply (uniform_fprintf _ same_jump_write) |].
  apply uniform_bind; [apply intercept_uniform_try | intros].
  apply uniform_bind; [apply (uniform_fprintf _ same_jump_write) | intros].
  apply uniform_bind;
    [apply (uniform_print_string_array_loop _ same_jump_write same_jump_read);
     apply intercept_uniform_print_string | intros].
  uniform_steps same_jump_write same_jump_read same_jump_tbl.
Qed.

Lemma intercept_uniform_loop : forall steps ebp,
  uniform_from any_states same_jump_to (Intercept.traceback_loop w fuel steps ebp).
Proof.
  induction steps as [| steps IH]; intros ebp; cbn [Intercept.traceback_loop].
  - intros s1 s2 _. exact I.
  - apply uniform_sigsetjmp; [| apply uniform_ret].
    apply uniform_if; [apply uniform_ret |].
    apply uniform_bind; [apply (uniform_load32 _ same_jump_read) | intros old_ebp].
    apply uniform_bind; [apply (uniform_load32 _ same_jump_read) | intros ra].
    apply uniform_if; [apply (uniform_fprintf _ same_jump_write) |].
    apply uniform_bind; [apply (uniform_with_tbl _ same_jump_tbl) | intros index].
    apply uniform_bind; [| intros; apply uniform_from_any, IH].
    apply uniform_if; [apply (uniform_fprintf _ same_jump_write) |].
    apply uniform_bind; [apply (uniform_with_tbl _ same_jump_tbl) | intros f].
    apply uniform_bind; [apply (uniform_load32 _ same_jump_read) | intros operand].
    apply uniform_bind; [apply (uniform_with_tbl _ same_jump_tbl) | intros exit].
    apply uniform_bind; [apply (uniform_fprintf _ same_jump_write) | intros].
    apply uniform_bind;
      [apply (uniform_print_arguments _ same_jump_write same_jump_read);
       [apply intercept_uniform_print_string
       | apply intercept_uniform_print_string_array]
      | intros].
    apply (uniform_fprintf _ same_jump_write).
Qed.

Lemma intercept_uniform_traceback steps :
  uniform_from any_states any_states (Intercept.traceback w fuel steps).
Proof.
  intros s1 s2 _. unfold Intercept.traceback, Intercept.SIGSEGV_handler_setup.
  destruct (sigaction_ret w <? 0); [| destruct (sigprocmask_ret w <? 0)].
  - cbn. split; [exact I |]. eexists. split; reflexivity.
  - cbn. split; [exact I |]. eexists. split; reflexivity.
  - change ((ret tt ;;; Intercept.traceback_loop w fuel steps (wrap (trace_init_ebp w))) s1)
      with (Intercept.traceback_loop w fuel steps (wrap (trace_init_ebp w)) s1).
    change ((ret tt ;;; Intercept.traceback_loop w fuel steps (wrap (trace_init_ebp w))) s2)
      with (Intercept.traceback_loop w fuel steps (wrap (trace_init_ebp w)) s2).
    apply (agree_weaken same_jump_to); [intros; exact I |].
    apply intercept_uniform_loop. exact I.
Qed.

End InterceptUniform.


(** ** C7: the walk ends *)

Lemma halted_bind {A B} (m : M A) (f : A -> M B) s :
  halted (m s) = true ->
  (forall a s', m s = Done a s' -> halted (f a s') = true) ->
  halted (bind m f s) = true.
Proof.
  unfold bind. destruct (m s); cbn; intros H K; try reflexivity; try discriminate.
  now apply K.
Qed.

Lemma halts_bind {A B} (m : M A) (f : A -> M B) :
  halts m -> (forall a, halts (f a)) -> halts (bind m f).
Proof. intros Hm Hf s. apply halted_bind; [apply Hm | intros; apply Hf]. Qed.

Lemma halts_ret {A} (a : A) : halts (ret a).
Proof. intros s. reflexivity. Qed.

Lemma halts_fprintf t : halts (fprintf t).
Proof. intros s. reflexivity. Qed.

Lemma halts_load8 w a : halts (load8 w a).
Proof. intros s. unfold load8. destruct (byte_at w a); reflexivity. Qed.

Lemma halts_load32 w a : halts (load32 w a).
Proof. intros s. unfold load32. destruct (word_at w a); reflexivity. Qed.

Lemma halts_with_tbl {A} (r : A * list Z) : halts (with_tbl r).
Proof. intros s. reflexivity. Qed.

Lemma halts_if {A} (b : bool) (m1 m2 : M A) :
  halts m1 -> halts m2 -> halts (if b then m1 else m2).
Proof. destruct b; auto. Qed.

Lemma halts_sigsetjmp {A} c (direct resumed : M A) :
  halts direct -> halts resumed -> halts (sigsetjmp c direct resumed).
Proof.
  intros Hd Hr s. unfold sigsetjmp, resume. specialize (Hd (set_jump c s)).
  destruct (direct (set_jump c s)); cbn in *; try reflexivity; try discriminate.
  destruct (checkpoint_eqb _ _); [apply Hr | reflexivity].
Qed.

(** Closes a goal [halts m] over [bind], [if] and the primitives. *)
Ltac halts_steps_with known :=
  repeat first
    [ known
    | apply halts_bind; intros
    | apply halts_if
    | apply halts_ret
    | apply halts_fprintf
    | apply halts_load8
    | apply halts_load32
    | apply halts_with_tbl ].

Ltac halts_steps := halts_steps_with fail.

Lemma halts_load64 w a : halts (load64 w a).
Proof. unfold load64. halts_steps. Qed.

Lemma halts_print_chars w arg_val length : forall n i,
  halts (print_chars w n i arg_val length).
Proof.
  induction n as [| n IH]; intros i; cbn [print_chars]; halts_steps. apply IH.
Qed.

Section HaltingPrinters.

Variable w : world.
Variable print_string print_string_array : Z -> M unit.
Hypothesis halts_print_string : forall p, halts (print_string p).
Hypothesis halts_print_string_array : forall p, halts (print_string_array p).

Lemma halts_print_string_array_loop arg_val : forall n i,
  halts (print_string_array_loop w print_string n i arg_val).
Proof.
  induction n as [| n IH]; intros i; cbn [print_string_array_loop]; halts_steps;
    auto.
Qed.

Lemma halts_print_argument arg ebp :
  halts (print_argument w print_string print_string_array arg ebp).
Proof.
  unfold print_argument. destruct (type arg); halts_steps;
    auto using halts_load64.
Qed.

Lemma halts_print_arguments function ebp :
  halts (print_arguments w print_string print_string_array function ebp).
Proof.
  unfold print_arguments. apply halts_bind; [| intros; halts_steps].
  generalize 0. induction (Z.to_nat (ARGS_MAX_NUM w)) as [| n IH]; intros index;
    cbn [print_arguments_loop]; halts_steps; auto using halts_print_argument.
Qed.

End HaltingPrinters.

(** *** The string scan *)

Lemma byte_at_congr w a b : wrap a = wrap b -> byte_at w a = byte_at w b.
Proof. unfold byte_at. now intros ->. Qed.

Lemma wrap_sint_add a x y : wrap (a + sint x + y) = wrap (a + x + y).
Proof.
  unfold wrap, sint. rewrite (Z.mod_eq x (2 ^ 32)) by lia.
  destruct (_ <? _).
  - replace (a + (x - 2 ^ 32 * (x / 2 ^ 32)) + y)
      with (a + x + y + (- (x / 2 ^ 32)) * 2 ^ 32) by lia.
    apply Z.mod_add. lia.
  - replace (a + (x - 2 ^ 32 * (x / 2 ^ 32) - 2 ^ 32) + y)
      with (a + x + y + (- (x / 2 ^ 32) - 1) * 2 ^ 32) by lia.
    apply Z.mod_add. lia.
Qed.

Lemma stops_congr w a b : wrap a = wrap b -> stops w a -> stops w b.
Proof. unfold stops. intros E. now rewrite (byte_at_congr w a b E). Qed.

(** A scan that has a stopping byte [d] bytes ahead ends within [d + 1]
    turns. *)
Lemma probe_scan_halts w arg_val : forall d fuel len,
  stops w (arg_val + len + Z.of_nat d) -> (d < fuel)%nat ->
  halts (Probe.is_string_print_loop w fuel arg_val len).
Proof.
  induction d as [| d IH]; intros fuel len Hstop Hfuel s;
    (destruct fuel as [| fuel]; [lia |]); cbn [Probe.is_string_print_loop];
    (apply halted_bind; [reflexivity | intros ok s1 _]);
    (destruct ok; cbn [negb]; [| reflexivity]);
    (apply halted_bind; [apply halts_load8 | intros c s2 Hc]);
    unfold load8 in Hc;
    (destruct (byte_at w (arg_val + len)) as [c' |] eqn:Hb; [| discriminate]);
    injection Hc as -> _;
    (destruct (c =? 0) eqn:Ez; [reflexivity |]);
    (destruct (isprint (schar c)) eqn:Ep; cbn [negb]; [| reflexivity]).
  - exfalso. unfold stops in Hstop. cbn [Z.of_nat] in Hstop.
    rewrite Z.add_0_r, Hb in Hstop.
    destruct Hstop as [-> | Hn]; [discriminate Ez | congruence].
  - apply IH; [| lia].
    apply (stops_congr w (arg_val + len + Z.of_nat (S d))); [| exact Hstop].
    rewrite wrap_sint_add. f_equal. lia.
Qed.

Lemma intercept_scan_halts w arg_val : forall d fuel len,
  stops w (arg_val + len + Z.of_nat d) -> (d < fuel)%nat ->
  halts (Intercept.is_string_print_loop w fuel arg_val len).
Proof.
  induction d as [| d IH]; intros fuel len Hstop Hfuel s;
    (destruct fuel as [| fuel]; [lia |]); cbn [Intercept.is_string_print_loop];
    (apply halted_bind; [apply halts_load8 | intros c s2 Hc]);
    unfold load8 in Hc;
    (destruct (byte_at w (arg_val + len)) as [c' |] eqn:Hb; [| discriminate]);
    injection Hc as -> _;
    (destruct (c =? 0) eqn:Ez; [reflexivity |]);
    (destruct (isprint (schar c)) eqn:Ep; cbn [negb]; [| reflexivity]).
  - exfalso. unfold stops in Hstop. cbn [Z.of_nat] in Hstop.
    rewrite Z.add_0_r, Hb in Hstop.
    destruct Hstop as [-> | Hn]; [discriminate Ez | congruence].
  - apply IH; [| lia].
    apply (stops_congr w (arg_val + len + Z.of_nat (S d))); [| exact Hstop].
    rewrite wrap_sint_add. f_equal. lia.
Qed.

(** Any stopping byte of the address space is less than [2 ^ 32] bytes
    ahead of any address. *)
Lemma stop_ahead w a0 a :
  stops w a0 -> exists d, (d < Z.to_nat (2 ^ 32))%nat /\ stops w (a + Z.of_nat d).
Proof.
  intros H. exists (Z.to_nat ((a0 - a) mod 2 ^ 32)).
  pose proof (Z.mod_pos_bound (a0 - a) (2 ^ 32) ltac:(lia)) as B.
  split; [lia |].
  apply (stops_congr w a0); [| exact H].
  rewrite Z2Nat.id by lia. unfold wrap.
  rewrite Zplus_mod_idemp_r. f_equal. lia.
Qed.

Section Halting.

Variable w : world.
Variable a0 : Z.
Hypothesis some_stop : stops w a0.
Variable fuel : nat.
Hypothesis enough : (Z.to_nat (2 ^ 32) <= fuel)%nat.

Lemma probe_print_string_halts p : halts (Probe.print_string w fuel p).
Proof.
  unfold Probe.print_string, Probe.is_string_print. apply halts_bind.
  - apply halts_if; [apply halts_ret |].
    destruct (stop_ahead w a0 (p + 0) some_stop) as (d & Hd & Hs).
    apply (probe_scan_halts w p d); [exact Hs | lia].
  - intros [length |]; [| apply halts_fprintf].
    apply halts_bind; [apply halts_fprintf | intros].
    apply halts_bind; [apply halts_print_chars | intros]. halts_steps.
Qed.

Lemma probe_print_string_array_halts p : halts (Probe.print_string_array w fuel p).
Proof.
  unfold Probe.print_string_array.
  apply halts_if; [apply halts_fprintf |].
  apply halts_bind; [apply halts_fprintf | intros].
  apply halts_bind;
    [apply halts_print_string_array_loop, probe_print_string_halts | intros].
  halts_steps.
Qed.

Lemma intercept_print_string_halts p : halts (Intercept.print_string w fuel p).
Proof.
  unfold Intercept.print_string, Intercept.is_string_print. apply halts_bind.
  - apply halts_sigsetjmp; [| apply halts_ret].
    apply halts_if; [apply halts_ret |].
    destruct (stop_ahead w a0 (p + 0) some_stop) as (d & Hd & Hs).
    apply (intercept_scan_halts w p d); [exact Hs | lia].
  - intros [length |]; [| apply halts_fprintf].
    apply halts_bind; [apply halts_fprintf | intros].
    apply halts_bind; [apply halts_print_chars | intros]. halts_steps.
Qed.

Lemma intercept_print_string_array_halts p :
  halts (Intercept.print_string_array w fuel p).
Proof.
  unfold Intercept.print_string_array.
  apply halts_sigsetjmp; [| apply halts_fprintf].
  apply halts_if; [apply halts_fprintf |].
  apply halts_bind.
  { generalize 0. induction (Z.to_nat MAX_ARRAY_LEN) as [| n IH]; intros i;
      cbn [Intercept.try_elements]; halts_steps. apply IH. }
  intros _.
  apply halts_bind; [apply halts_fprintf | intros].
  apply halts_bind;
    [apply halts_print_string_array_loop, intercept_print_string_halts | intros].
  halts_steps.
Qed.

(** The probe revision's walk: every turn that goes on moves to a strictly
    greater frame pointer below [2 ^ 32]. *)
Lemma probe_loop_halts : forall steps ebp,
  0 <= ebp < 2 ^ 32 -> 2 ^ 32 - ebp <= Z.of_nat steps ->
  halts (Probe.traceback_loop w fuel steps ebp).
Proof.
  induction steps as [| steps IH]; intros ebp Hebp Hsteps s; [lia |].
  cbn [Probe.traceback_loop].
  apply halted_bind; [apply halts_load32 | intros old s1 Hold].
  unfold load32 in Hold.
  destruct (word_at w ebp) as [v |] eqn:Ew; [| discriminate].
  injection Hold as -> _. pose proof (word_at_range _ _ _ Ew) as Ro.
  apply halted_bind; [apply halts_load32 | intros ra s2 _].
  destruct (Z.geb_spec ebp old) as [_ | Hlt]; [reflexivity |].
  assert (Next : halts (Probe.traceback_loop w fuel steps old)) by (apply IH; lia).
  revert s2. change (halts (
    index <- with_tbl (Probe.get_index w (sint ra)) ;;
    if index <? 0 then
      fprintf ("Function 0x" ++ fmt_x (sint ra) ++ "(...), in" ++ newline) ;;;
      Probe.traceback_loop w fuel steps old
    else
      curr_function <- with_tbl (funct_at w index, [index]) ;;
      operand <- load32 w (sint ra + 4) ;;
      let exit_address := sint (sint ra + sint operand + 8) in
      exit <- with_tbl (Probe.get_index w exit_address) ;;
      stop <- with_tbl (Probe.is_main w index exit) ;;
      if stop then ret tt else
      fprintf ("Function " ++ name curr_function ++ "(") ;;;
      Probe.print_arguments w fuel curr_function old ;;;
      fprintf ("), in" ++ newline) ;;;
      Probe.traceback_loop w fuel steps old)).
  halts_steps_with
    ltac:(first [ exact Next
                | apply halts_print_arguments;
                  [apply probe_print_string_halts
                  | apply probe_print_string_array_halts] ]).
Qed.

(** The interception revision's walk: a turn that goes on moves to a
    strictly greater frame pointer, or to the null one, where the next
    turn stops. *)
Lemma intercept_loop_halts : forall steps ebp,
  0 <= ebp < 2 ^ 32 ->
  (if ebp =? 0 then 1 else 2 ^ 32 - ebp + 1) <= Z.of_nat steps ->
  halts (Intercept.traceback_loop w fuel steps ebp).
Proof.
  induction steps as [| steps IH]; intros ebp Hebp Hsteps.
  { destruct (ebp =? 0); lia. }
  cbn [Intercept.traceback_loop].
  apply halts_sigsetjmp; [| apply halts_ret]. intros s.
  destruct (Z.eqb_spec ebp 0) as [_ | Hnz]; [reflexivity |].
  apply halted_bind; [apply halts_load32 | intros old s1 Hold].
  unfold load32 in Hold.
  destruct (word_at w ebp) as [v |] eqn:Ew; [| discriminate].
  injection Hold as -> _. pose proof (word_at_range _ _ _ Ew) as Ro.
  apply halted_bind; [apply halts_load32 | intros ra s2 _].
  destruct (negb (old =? 0) && (ebp >=? old)) eqn:Ec; [reflexivity |].
  assert (Next : halts (Intercept.traceback_loop w fuel steps old)).
  { apply IH; [lia |].
    destruct (Z.eqb_spec old 0) as [-> | Ho]; [lia |].
    cbn [negb andb] in Ec. destruct (Z.geb_spec ebp old); [discriminate | lia]. }
  revert s2. change (halts (
    index <- with_tbl (Intercept.get_index w (sint ra)) ;;
    (if index <? 0 then
       fprintf ("Function 0x" ++ fmt_x (sint ra) ++ "(...), in" ++ newline)
     else
       curr_function <- with_tbl (funct_at w index, [index]) ;;
       operand <- load32 w (sint ra + 4) ;;
       let exit_address := sint (sint ra + sint operand + 8) in
       _ <- with_tbl (Intercept.get_index w exit_address) ;;
       fprintf ("Function " ++ name curr_function ++ "(") ;;;
       Intercept.print_arguments w fuel curr_function old ;;;
       fprintf ("), in" ++ newline)) ;;;
    Intercept.traceback_loop w fuel steps old)).
  halts_steps_with
    ltac:(first [ exact Next
                | apply halts_print_arguments;
                  [apply intercept_print_string_halts
                  | apply intercept_print_string_array_halts] ]).
Qed.

End Halting.

(** Without a stopping byte the scan has no end: in a memory that is letters
    all over it uses up any number of turns. *)
Lemma scan_of_letters_has_no_end ebp arg_val : forall fuel len s,
  0 <= fd s ->
  Probe.is_string_print_loop (demo_world letters_mem ebp) fuel arg_val len s = OutOfFuel.
Proof.
  induction fuel as [| fuel IH]; intros len s Hfd; [reflexivity |].
  rewrite (probe_scan_turn _ _ _ _ 97) by (trivial; reflexivity).
  cbn zeta. cbn [Z.eqb]. change (negb (isprint (schar 97))) with false. cbn iota.
  apply IH. exact Hfd.
Qed.




(** * Further properties of the code *)

(** ** [get_index] on any table *)

Lemma sint_is_int a : is_int (sint a).
Proof.
  unfold is_int, sint.
  pose proof (Z.mod_pos_bound a (2 ^ 32) ltac:(lia)).
  destruct (Z.ltb_spec (a mod 2 ^ 32) (2 ^ 31)); lia.
Qed.

(** The probe revision's scan on an arbitrary table: it reads inside the
    array only, passes over named entries that start at or below the address,
    and raises its flag only at an entry of the array. *)
Lemma probe_scan_any w a : forall fuel i seen,
  Z.of_nat fuel = FUNCTS_MAX_NUM w - i -> 0 <= i ->
  Forall (in_table w) seen ->
  let '(r, find, seen') := Probe.get_index_loop w fuel i a seen in
  i <= r <= FUNCTS_MAX_NUM w /\
  (find = true ->
     r < FUNCTS_MAX_NUM w /\ nonempty (name (funct_at w r)) = true /\ a < start w r) /\
  (forall j, i <= j < r ->
     nonempty (name (funct_at w j)) = true /\ start w j <= a) /\
  Forall (in_table w) seen'.
Proof.
  induction fuel as [| fuel IH]; intros i seen Hf Hi Hseen;
    cbn [Probe.get_index_loop].
  - repeat split; intros; try discriminate; try lia. exact Hseen.
  - assert (Hseen' : Forall (in_table w) (seen ++ [i])).
    { apply Forall_app. split; [exact Hseen |].
      constructor; [unfold in_table; lia | constructor]. }
    destruct (nonempty (name (funct_at w i))) eqn:En.
    + fold (start w i). destruct (Z.gtb_spec (start w i) a) as [G | G].
      * repeat split; intros; try discriminate; try lia; try assumption.
      * specialize (IH (i + 1) (seen ++ [i])%list ltac:(lia) ltac:(lia) Hseen').
        destruct (Probe.get_index_loop w fuel (i + 1) a (seen ++ [i]))
          as [[r find] sn].
        destruct IH as (R1 & R2 & R3 & R4).
        split; [lia | split; [exact R2 | split; [| exact R4]]].
        intros j Hj. destruct (Z.eq_dec j i) as [-> | ]; [auto | apply R3; lia].
    + repeat split; intros; try discriminate; try lia. exact Hseen'.
Qed.

Lemma intercept_scan_any w a : forall fuel i seen,
  Z.of_nat fuel = FUNCTS_MAX_NUM w - i -> 0 <= i ->
  Forall (in_table w) seen ->
  let '(r, seen') := Intercept.get_index_loop w fuel i a seen in
  i <= r <= FUNCTS_MAX_NUM w /\
  (forall j, i <= j < r ->
     nonempty (name (funct_at w j)) = true /\ start w j <= a) /\
  Forall (in_table w) seen'.
Proof.
  induction fuel as [| fuel IH]; intros i seen Hf Hi Hseen;
    cbn [Intercept.get_index_loop].
  - repeat split; intros; try lia. exact Hseen.
  - assert (Hseen' : Forall (in_table w) (seen ++ [i])).
    { apply Forall_app. split; [exact Hseen |].
      constructor; [unfold in_table; lia | constructor]. }
    destruct (nonempty (name (funct_at w i))) eqn:En.
    + fold (start w i). destruct (Z.gtb_spec (start w i) a) as [G | G].
      * repeat split; intros; try lia. exact Hseen'.
      * specialize (IH (i + 1) (seen ++ [i])%list ltac:(lia) ltac:(lia) Hseen').
        destruct (Intercept.get_index_loop w fuel (i + 1) a (seen ++ [i]))
          as [r sn].
        destruct IH as (R1 & R2 & R3).
        split; [lia | split; [| exact R3]].
        intros j Hj. destruct (Z.eq_dec j i) as [-> | ]; [auto | apply R2; lia].
    + repeat split; intros; try lia. exact Hseen'.
Qed.

(** X1.  On any table, sorted or not, full or not, [get_index] of
    [src/traceback/traceback.c] reads entries of the array only; what it
    returns is -1 or the index of an entry of the array that has a name,
    starts at or below the address and is followed in the array by a named
    entry that starts above it. *)
Theorem probe_get_index_in_table w a :
  0 <= FUNCTS_MAX_NUM w ->
  let k := fst (Probe.get_index w a) in
  Forall (in_table w) (snd (Probe.get_index w a)) /\
  (k = -1 \/
   (in_table w k /\ in_table w (k + 1) /\
    nonempty (name (funct_at w k)) = true /\ start w k <= a /\
    nonempty (name (funct_at w (k + 1))) = true /\ a < start w (k + 1))).
Proof.
  intros Hmax. cbn zeta. unfold Probe.get_index.
  pose proof (probe_scan_any w a (Z.to_nat (FUNCTS_MAX_NUM w)) 0 []
                ltac:(lia) ltac:(lia) (Forall_nil _)) as S.
  destruct (Probe.get_index_loop w (Z.to_nat (FUNCTS_MAX_NUM w)) 0 a [])
    as [[r find] seen] eqn:E.
  destruct S as (R1 & R2 & R3 & R4). cbn [fst snd]. split; [exact R4 |].
  destruct find; [| left; reflexivity].
  destruct (R2 eq_refl) as (B & N & U).
  destruct (Z.eq_dec r 0) as [-> | Hr]; [left; reflexivity | right].
  destruct (R3 (r - 1) ltac:(lia)) as [N' L].
  replace (r - 1 + 1) with r by lia.
  unfold in_table. repeat split; try lia; assumption.
Qed.

Lemma probe_get_index_in_table_witness :
  Forall (in_table demo) (snd (Probe.get_index demo 4450)) /\
  fst (Probe.get_index demo 4450) = 2.
Proof.
  destruct (probe_get_index_in_table demo 4450 ltac:(cbn; lia)) as [R _].
  split; [exact R | reflexivity].
Defined.

(** X2.  On any table, [get_index] of the fault-interception revision never
    reads at or past the end of the array (the one entry it may read outside
    is the one in front); what it returns is -1 or the index of an entry of
    the array that has a name, starts at or below the address and passes the
    size check. *)
Theorem intercept_get_index_in_table w a :
  0 <= FUNCTS_MAX_NUM w ->
  let k := fst (Intercept.get_index w a) in
  Forall (fun i => -1 <= i < FUNCTS_MAX_NUM w) (snd (Intercept.get_index w a)) /\
  (k = -1 \/
   (in_table w k /\ nonempty (name (funct_at w k)) = true /\ start w k <= a /\
    sint (a - start w k) < MAX_FUNCTION_SIZE_BYTES w)).
Proof.
  intros Hmax. cbn zeta. unfold Intercept.get_index.
  pose proof (intercept_scan_any w a (Z.to_nat (FUNCTS_MAX_NUM w)) 0 []
                ltac:(lia) ltac:(lia) (Forall_nil _)) as S.
  destruct (Intercept.get_index_loop w (Z.to_nat (FUNCTS_MAX_NUM w)) 0 a [])
    as [r seen] eqn:E.
  destruct S as (R1 & R2 & R3).
  assert (Hseen : Forall (fun i => -1 <= i < FUNCTS_MAX_NUM w) (seen ++ [r - 1])).
  { apply Forall_app. split.
    - eapply Forall_impl; [| exact R3]. unfold in_table. intros; lia.
    - constructor; [lia | constructor]. }
  destruct (Z.geb_spec r 0); [| lia]. cbn zeta. fold (start w (r - 1)).
  destruct (Z.ltb_spec (sint (a - start w (r - 1))) (MAX_FUNCTION_SIZE_BYTES w));
    cbn [fst snd]; (split; [exact Hseen |]); [| left; reflexivity].
  destruct (Z.eq_dec r 0) as [-> | Hr]; [left; reflexivity | right].
  destruct (R2 (r - 1) ltac:(lia)) as [N L].
  unfold in_table. repeat split; try lia; assumption.
Qed.

Lemma intercept_get_index_in_table_witness :
  Forall (fun i => -1 <= i < 8) (snd (Intercept.get_index demo 4000)) /\
  fst (Intercept.get_index demo 4600) = 3.
Proof.
  destruct (intercept_get_index_in_table demo 4000 ltac:(cbn; lia)) as [R _].
  split; [exact R | reflexivity].
Defined.

(** ** [print_string] on any memory *)

Lemma string_length_append (a b : string) :
  String.length (a ++ b) = (String.length a + String.length b)%nat.
Proof. induction a as [| x a IH]; cbn; [reflexivity | now rewrite IH]. Qed.

(** A number below [base ^ k] takes at most [k] digits. *)
Lemma digits_length base : 1 < base -> forall fuel k n acc,
  (1 <= k)%nat -> 0 <= n < base ^ Z.of_nat k ->
  (String.length (digits base fuel n acc) <= String.length acc + k)%nat.
Proof.
  intros Hb. induction fuel as [| fuel IH]; intros k n acc Hk Hn; cbn [digits].
  - lia.
  - destruct (Z.ltb_spec n base) as [L | L]; [cbn; lia |].
    destruct k as [| [| k]]; [lia | |].
    + change (Z.of_nat 1) with 1 in Hn. rewrite Z.pow_1_r in Hn. lia.
    + specialize (IH (S k) (n / base) (String (digit (n mod base)) acc) ltac:(lia)).
      cbn [String.length] in IH.
      assert (0 <= n / base < base ^ Z.of_nat (S k)).
      { rewrite (Nat2Z.inj_succ (S k)), Z.pow_succ_r in Hn by lia.
        split; [apply Z.div_pos; lia | apply Z.div_lt_upper_bound; lia]. }
      specialize (IH H). lia.
Qed.

Lemma fmt_x_length v : (String.length (fmt_x v) <= 8)%nat.
Proof.
  unfold fmt_x. pose proof (wrap_range v).
  apply (digits_length 16 ltac:(lia) 32 8 (wrap v) ""); [lia |].
  change (16 ^ Z.of_nat 8) with (2 ^ 32). assumption.
Qed.

Lemma fmt_alt_x_length v : (String.length (fmt_alt_x v) <= 10)%nat.
Proof.
  unfold fmt_alt_x. destruct (wrap v =? 0); [cbn; lia |].
  pose proof (fmt_x_length v). cbn [append String.length]. lia.
Qed.

Section AnyString.

Variable w : world.
Variable p : Z.

(** The printing loop over bytes that were found readable: it returns, and
    writes no more than its cap. *)
Lemma print_chars_safe length : forall n i s,
  (forall j, i <= j < length -> byte_at w (p + j) <> None) ->
  exists k s' t, print_chars w n i p length s = Done k s' /\
                 wrote s s' t /\ (String.length t <= n)%nat.
Proof.
  induction n as [| n IH]; intros i s Hok; cbn [print_chars].
  - exists i, s, ""%string. split; [reflexivity | split; [apply wrote_refl | cbn; lia]].
  - destruct (Z.ltb_spec i length) as [L | L].
    + unfold bind at 1, load8 at 1.
      destruct (byte_at w (p + i)) as [c |] eqn:Hb; [| now destruct (Hok i ltac:(lia))].
      unfold bind at 1, fprintf at 1.
      destruct (IH (i + 1) (write_out (fmt_c c) (log_read (wrap (p + i)) s)))
        as (k & s' & t & E & W & B).
      { intros j Hj. apply Hok. lia. }
      exists k, s', (fmt_c c ++ t)%string. split; [exact E | split].
      * eapply wrote_trans; [| exact W].
        eapply wrote_nil_trans; [apply wrote_log_read | apply wrote_write_out].
      * cbn. lia.
    + exists i, s, ""%string.
      split; [reflexivity | split; [apply wrote_refl | cbn; lia]].
Qed.


Lemma scanned_next len c :
  is_int len -> scanned w p len -> byte_at w (p + len) = Some c ->
  scanned w p (sint (len + 1)).
Proof.
  intros Hi [A | [Hl P]] Hb; [left; exact A |].
  unfold is_int in Hi.
  assert (Hnext : forall j, 0 <= j < len + 1 -> byte_at w (p + j) <> None).
  { intros j Hj. destruct (Z.eq_dec j len) as [-> | ]; [congruence | apply P; lia]. }
  destruct (Z.eq_dec len (2 ^ 31 - 1)) as [-> | Hne].
  - left. intros j Hj. apply Hnext. lia.
  - right. rewrite sint_id by (unfold is_int; lia). split; [lia | exact Hnext].
Qed.

Lemma scanned_prefix len :
  is_int len -> scanned w p len -> forall j, 0 <= j < len -> byte_at w (p + j) <> None.
Proof.
  intros Hi [A | [_ P]] j Hj; [apply A; unfold is_int in Hi; lia | now apply P].
Qed.

(** The probe revision's scan never faults, writes nothing, and when it
    answers with a length every byte before that length is readable. *)
Lemma probe_scan_safe : forall fuel len s,
  is_int len -> scanned w p len ->
  match Probe.is_string_print_loop w fuel p len s with
  | Done (Some L) s' =>
      wrote s s' "" /\ forall j, 0 <= j < L -> byte_at w (p + j) <> None
  | Done None s' => wrote s s' ""
  | OutOfFuel => True
  | Fault _ | Exited _ => False
  end.
Proof.
  induction fuel as [| fuel IH]; intros len s Hi Hs; [exact I |].
  cbn [Probe.is_string_print_loop].
  unfold bind at 1, Probe.isvalid at 1, Probe.sys_write.
  destruct (fd s <? 0); [cbn; apply wrote_refl |].
  destruct (byte_at w (p + len)) as [c |] eqn:Hb; [| cbn; apply wrote_refl].
  cbn [negb Z.ltb Z.compare].
  unfold bind at 1, load8 at 1. rewrite Hb.
  destruct (c =? 0).
  { cbn. split; [apply wrote_log_read | now apply scanned_prefix]. }
  destruct (isprint (schar c)); cbn [negb]; [| cbn; apply wrote_log_read].
  specialize (IH (sint (len + 1)) (log_read (wrap (p + len)) s)
                 (sint_is_int _) (scanned_next len c Hi Hs Hb)).
  destruct (Probe.is_string_print_loop w fuel p (sint (len + 1)) _)
    as [[L |] s' | s' | s' |]; try exact IH.
  - destruct IH as [W P]. split; [| exact P].
    eapply wrote_nil_trans; [apply wrote_log_read | exact W].
  - eapply wrote_nil_trans; [apply wrote_log_read | exact IH].
Qed.

(** The interception revision's scan may fault, in which case [jump_to] is
    as the scan found it. *)
Lemma intercept_scan_safe : forall fuel len s,
  is_int len -> scanned w p len ->
  match Intercept.is_string_print_loop w fuel p len s with
  | Done (Some L) s' =>
      wrote s s' "" /\ forall j, 0 <= j < L -> byte_at w (p + j) <> None
  | Done None s' => wrote s s' ""
  | Fault s' => wrote s s' ""
  | OutOfFuel => True
  | Exited _ => False
  end.
Proof.
  induction fuel as [| fuel IH]; intros len s Hi Hs; [exact I |].
  cbn [Intercept.is_string_print_loop].
  unfold bind at 1, load8 at 1.
  destruct (byte_at w (p + len)) as [c |] eqn:Hb; [| cbn; apply wrote_log_read].
  destruct (c =? 0).
  { cbn. split; [apply wrote_log_read | now apply scanned_prefix]. }
  destruct (isprint (schar c)); cbn [negb]; [| cbn; apply wrote_log_read].
  specialize (IH (sint (len + 1)) (log_read (wrap (p + len)) s)
                 (sint_is_int _) (scanned_next len c Hi Hs Hb)).
  destruct (Intercept.is_string_print_loop w fuel p (sint (len + 1)) _)
    as [[L |] s' | s' | s' |]; try exact IH.
  - destruct IH as [W P]. split; [| exact P].
    eapply wrote_nil_trans; [apply wrote_log_read | exact W].
  - eapply wrote_nil_trans; [apply wrote_log_read | exact IH].
  - eapply wrote_nil_trans; [apply wrote_log_read | exact IH].
Qed.

Lemma scanned_0 : scanned w p 0.
Proof. right. split; [lia | intros; lia]. Qed.

Lemma is_int_0 : is_int 0.
Proof. unfold is_int. lia. Qed.

(** What both revisions run on a validated string of length [L]. *)
Lemma quoted_tail_safe L s :
  (forall j, 0 <= j < L -> byte_at w (p + j) <> None) ->
  exists s' t,
    (fprintf dquote ;;;
     i <- print_chars w (Z.to_nat MAX_STRING_LEN) 0 p L ;;
     (if (i >=? MAX_STRING_LEN) && (i <? L) then fprintf "..." else ret tt) ;;;
     fprintf dquote) s = Done tt s' /\
    wrote s s' t /\ (String.length t <= 30)%nat.
Proof.
  intros Hok. unfold bind at 1, fprintf at 1.
  destruct (print_chars_safe L (Z.to_nat MAX_STRING_LEN) 0 (write_out dquote s) Hok)
    as (k & s1 & t & E & W & B).
  unfold bind at 1. rewrite E.
  assert (W1 : wrote s s1 (dquote ++ t)).
  { eapply wrote_trans; [apply wrote_write_out | exact W]. }
  change (Z.to_nat MAX_STRING_LEN) with 25%nat in B.
  destruct ((k >=? MAX_STRING_LEN) && (k <? L)).
  - eexists _, _. split; [reflexivity | split].
    + eapply wrote_trans; [exact W1 |]. eapply wrote_trans; apply wrote_write_out.
    + rewrite !string_length_append. cbn. lia.
  - eexists _, _. split; [reflexivity | split].
    + eapply wrote_trans; [exact W1 | apply wrote_write_out].
    + rewrite !string_length_append. cbn. lia.
Qed.

End AnyString.

Lemma probe_print_string_bounded w fuel p s :
  wrote_at_most 30 s (Probe.print_string w fuel p s).
Proof.
  unfold Probe.print_string, Probe.is_string_print, wrote_at_most.
  unfold bind at 1.
  destruct (p =? 0).
  { cbn. eexists. split; [apply emitted_write_out |].
    pose proof (fmt_alt_x_length p). lia. }
  pose proof (probe_scan_safe w p fuel 0 s is_int_0 (scanned_0 w p)) as S.
  destruct (Probe.is_string_print_loop w fuel p 0 s) as [[L |] s1 | s1 | s1 |];
    try contradiction; [| | exact I].
  - destruct S as [W P].
    destruct (quoted_tail_safe w p L s1 P) as (s' & t & E & W' & B).
    rewrite E. exists t. split; [| exact B].
    apply wrote_emitted. eapply wrote_nil_trans; eassumption.
  - cbn. eexists. split.
    + apply wrote_emitted. eapply wrote_nil_trans; [exact S | apply wrote_write_out].
    + pose proof (fmt_alt_x_length p). lia.
Qed.

Lemma intercept_print_string_bounded w fuel p s :
  wrote_at_most 30 s (Intercept.print_string w fuel p s).
Proof.
  unfold Intercept.print_string, Intercept.is_string_print, wrote_at_most.
  unfold bind at 1, sigsetjmp, resume.
  assert (Hptr : (String.length ("0x" ++ fmt_x p) <= 30)%nat).
  { pose proof (fmt_x_length p). cbn [append String.length]. lia. }
  destruct (p =? 0).
  { cbn. eexists. split; [| exact Hptr].
    eapply emitted_nil_trans; [apply emitted_set_jump | apply emitted_write_out]. }
  pose proof (intercept_scan_safe w p fuel 0 (set_jump J_is_string_print s)
                is_int_0 (scanned_0 w p)) as S_.
  destruct (Intercept.is_string_print_loop w fuel p 0 (set_jump J_is_string_print s))
    as [[L |] s1 | s1 | s1 |]; try contradiction; [| | | exact I].
  - destruct S_ as [W P].
    destruct (quoted_tail_safe w p L s1 P) as (s' & t & E & W' & B).
    rewrite E. exists t. split; [| exact B].
    eapply emitted_nil_trans; [apply emitted_set_jump |].
    apply wrote_emitted. eapply wrote_nil_trans; eassumption.
  - cbn. eexists. split; [| exact Hptr].
    eapply emitted_nil_trans; [apply emitted_set_jump |].
    apply wrote_emitted. eapply wrote_nil_trans; [exact S_ | apply wrote_write_out].
  - rewrite (w_jump _ _ _ S_). cbn. eexists. split; [| exact Hptr].
    eapply emitted_nil_trans; [apply emitted_set_jump |].
    apply wrote_emitted. eapply wrote_nil_trans; [exact S_ | apply wrote_write_out].
Qed.

Lemma bounded_and_halted n s (r : result unit) :
  wrote_at_most n s r -> halted r = true ->
  exists s' t, r = Done tt s' /\ emitted s s' t /\ (String.length t <= n)%nat.
Proof.
  destruct r as [[] s' | s' | s' |]; cbn; intros W H;
    try contradiction; try discriminate.
  destruct W as (t & E & B). exists s', t. auto.
Qed.

(** X3.  Whatever the memory, the pointer, the probe descriptor and the
    state, [print_string] of [src/traceback/traceback.c] neither faults nor
    exits, and what it appends to the output is at most 30 characters long
    (two quotes, [MAX_STRING_LEN] characters and the ellipsis, or the
    pointer).  It returns as soon as one byte of the address space is
    unmapped, a terminator or not printable. *)
Theorem probe_print_string_safe w fuel p s :
  wrote_at_most 30 s (Probe.print_string w fuel p s) /\
  (forall a0, stops w a0 -> (Z.to_nat (2 ^ 32) <= fuel)%nat ->
     exists s' t, Probe.print_string w fuel p s = Done tt s' /\
                  emitted s s' t /\ (String.length t <= 30)%nat).
Proof.
  split; [apply probe_print_string_bounded |].
  intros a0 Hstop Hfuel. apply bounded_and_halted.
  - apply probe_print_string_bounded.
  - apply (probe_print_string_halts w a0 Hstop fuel Hfuel p).
Qed.

Lemma probe_print_string_safe_witness :
  exists s' t, Probe.print_string demo (Z.to_nat (2 ^ 32)) 3000 initial = Done tt s' /\
               emitted initial s' t /\ (String.length t <= 30)%nat.
Proof.
  destruct (probe_print_string_safe demo (Z.to_nat (2 ^ 32)) 3000 initial) as [_ H].
  apply (H 0); [exact I | apply le_n].
Defined.

(** X4.  The same for the fault-interception revision: a fault during the
    scan comes back to the [sigsetjmp] of [is_string_print], and the bytes
    printed afterwards are bytes the scan has read. *)
Theorem intercept_print_string_safe w fuel p s :
  wrote_at_most 30 s (Intercept.print_string w fuel p s) /\
  (forall a0, stops w a0 -> (Z.to_nat (2 ^ 32) <= fuel)%nat ->
     exists s' t, Intercept.print_string w fuel p s = Done tt s' /\
                  emitted s s' t /\ (String.length t <= 30)%nat).
Proof.
  split; [apply intercept_print_string_bounded |].
  intros a0 Hstop Hfuel. apply bounded_and_halted.
  - apply intercept_print_string_bounded.
  - apply (intercept_print_string_halts w a0 Hstop fuel Hfuel p).
Qed.

Lemma intercept_print_string_safe_witness :
  exists s' t, Intercept.print_string demo (Z.to_nat (2 ^ 32)) 3000 initial = Done tt s' /\
               emitted initial s' t /\ (String.length t <= 30)%nat.
Proof.
  destruct (intercept_print_string_safe demo (Z.to_nat (2 ^ 32)) 3000 initial) as [_ H].
  apply (H 0); [exact I | apply le_n].
Defined.

(** ** [print_string] of the fault-interception revision *)

Section InterceptString.

Variable w : world.
Variable p : Z.

Lemma intercept_scan_turn fuel len c s :
  byte_at w (p + len) = Some c ->
  Intercept.is_string_print_loop w (S fuel) p len s =
    let s' := log_read (wrap (p + len)) s in
    if c =? 0 then Done (Some len) s'
    else if negb (isprint (schar c)) then Done None s'
    else Intercept.is_string_print_loop w fuel p (sint (len + 1)) s'.
Proof.
  intros Hb. cbn [Intercept.is_string_print_loop].
  unfold bind at 1, load8 at 1. rewrite Hb. cbn zeta.
  destruct (c =? 0); [reflexivity |].
  destruct (negb (isprint (schar c))); reflexivity.
Qed.

Lemma intercept_scan_run : forall cs fuel len s,
  printable_run w (p + len) cs ->
  0 <= len -> len + Z.of_nat (List.length cs) < 2 ^ 31 ->
  exists s', wrote s s' "" /\
    Intercept.is_string_print_loop w (List.length cs + fuel) p len s =
    Intercept.is_string_print_loop w fuel p (len + Z.of_nat (List.length cs)) s'.
Proof.
  induction cs as [| c cs IH]; intros fuel len s Hrun Hlen Hmax.
  - exists s. split; [apply wrote_refl |]. cbn. now rewrite Z.add_0_r.
  - destruct Hrun as (Hb & Hp & Hrest).
    cbn [List.length Nat.add]. rewrite (intercept_scan_turn _ _ c) by assumption.
    cbn zeta.
    destruct (Z.eqb_spec c 0) as [E | _];
      [exfalso; revert E; now apply isprint_nonzero |].
    rewrite Hp. cbn [negb].
    cbn [List.length] in Hmax.
    rewrite sint_id by (unfold is_int; lia).
    destruct (IH fuel (len + 1) (log_read (wrap (p + len)) s)) as (s' & W & E).
    + now replace (p + (len + 1)) with (p + len + 1) by lia.
    + lia.
    + lia.
    + exists s'. split.
      * eapply wrote_nil_trans; [apply wrote_log_read | exact W].
      * rewrite E. f_equal. lia.
Qed.

(** [is_string_print] on a run of printable bytes closed by the terminator. *)
Lemma intercept_scan_length cs fuel s :
  p <> 0 -> printable_run w p cs ->
  byte_at w (p + Z.of_nat (List.length cs)) = Some 0 ->
  Z.of_nat (List.length cs) < 2 ^ 31 -> (List.length cs < fuel)%nat ->
  exists s', emitted s s' "" /\
    Intercept.is_string_print w fuel p s = Done (Some (Z.of_nat (List.length cs))) s'.
Proof.
  intros Hp Hrun Hend Hmax Hfuel.
  unfold Intercept.is_string_print, sigsetjmp.
  destruct (Z.eqb_spec p 0); [contradiction |].
  destruct (intercept_scan_run cs (fuel - List.length cs) 0
              (set_jump J_is_string_print s)) as (s' & W & E); try assumption; try lia.
  { now rewrite Z.add_0_r. }
  replace (List.length cs + (fuel - List.length cs))%nat with fuel in E by lia.
  rewrite E. cbn [Z.add].
  destruct (fuel - List.length cs)%nat as [| f] eqn:Ef; [lia |].
  rewrite (intercept_scan_turn _ _ 0) by assumption.
  cbn. eexists. split; [| reflexivity].
  eapply emitted_nil_trans; [apply emitted_set_jump |].
  apply wrote_emitted. eapply wrote_nil_trans; [exact W | apply wrote_log_read].
Qed.

(** [is_string_print] on a run closed by a byte that breaks the string: a
    byte that is not printable ends the scan, an unmapped one faults and the
    fault comes back to the [sigsetjmp]. *)
Lemma intercept_scan_break cs fuel s :
  p <> 0 -> printable_run w p cs ->
  breaks_string w (p + Z.of_nat (List.length cs)) ->
  Z.of_nat (List.length cs) < 2 ^ 31 -> (List.length cs < fuel)%nat ->
  exists s', emitted s s' "" /\ Intercept.is_string_print w fuel p s = Done None s'.
Proof.
  intros Hp Hrun Hend Hmax Hfuel.
  unfold Intercept.is_string_print, sigsetjmp.
  destruct (Z.eqb_spec p 0); [contradiction |].
  destruct (intercept_scan_run cs (fuel - List.length cs) 0
              (set_jump J_is_string_print s)) as (s' & W & E); try assumption; try lia.
  { now rewrite Z.add_0_r. }
  replace (List.length cs + (fuel - List.length cs))%nat with fuel in E by lia.
  rewrite E. cbn [Z.add].
  destruct (fuel - List.length cs)%nat as [| f] eqn:Ef; [lia |].
  assert (Ws : emitted s s' "").
  { eapply emitted_nil_trans; [apply emitted_set_jump | apply wrote_emitted, W]. }
  destruct Hend as [Hnone | (c & Hc & Hnz & Hnp)].
  - cbn [Intercept.is_string_print_loop].
    unfold bind at 1, load8 at 1. rewrite Hnone. cbn [resume jump_to log_read].
    rewrite (w_jump _ _ _ W). cbn.
    eexists. split; [| reflexivity].
    eapply emitted_trans_nil; [exact Ws | apply emitted_log_read].
  - rewrite (intercept_scan_turn _ _ c) by assumption. cbn zeta.
    destruct (Z.eqb_spec c 0); [contradiction |]. rewrite Hnp. cbn.
    eexists. split; [| reflexivity].
    eapply emitted_trans_nil; [exact Ws | apply emitted_log_read].
Qed.

End InterceptString.

(** X5.  In the fault-interception revision [print_string] writes [0x0] for a
    null pointer; for a non-null pointer to a run of readable printable bytes
    closed by a terminator it writes the whole run between double quotes when
    its length is at most [MAX_STRING_LEN], and the first [MAX_STRING_LEN]
    bytes followed by [...] between the quotes when it is longer; when the
    run is closed by an unmapped byte or by one that is not printable it
    writes the pointer as [0x] and hexadecimal digits.  In each case the call
    returns. *)
Theorem intercept_print_string_rendering w fuel p cs s :
  p <> 0 -> printable_run w p cs ->
  Z.of_nat (List.length cs) < 2 ^ 31 -> (List.length cs < fuel)%nat ->
  (exists s', Intercept.print_string w fuel 0 s = Done tt s' /\ emitted s s' "0x0") /\
  (byte_at w (p + Z.of_nat (List.length cs)) = Some 0 ->
   Z.of_nat (List.length cs) <= MAX_STRING_LEN ->
   exists s', Intercept.print_string w fuel p s = Done tt s' /\
              emitted s s' (dquote ++ chars cs ++ dquote)) /\
  (byte_at w (p + Z.of_nat (List.length cs)) = Some 0 ->
   MAX_STRING_LEN < Z.of_nat (List.length cs) ->
   exists s', Intercept.print_string w fuel p s = Done tt s' /\
              emitted s s' (dquote ++ chars (firstn (Z.to_nat MAX_STRING_LEN) cs)
                                   ++ "..." ++ dquote)) /\
  (breaks_string w (p + Z.of_nat (List.length cs)) ->
   exists s', Intercept.print_string w fuel p s = Done tt s' /\
              emitted s s' ("0x" ++ fmt_x p)).
Proof.
  intros Hp Hrun Hmax Hfuel.
  assert (Quoted : byte_at w (p + Z.of_nat (List.length cs)) = Some 0 ->
            exists s', Intercept.print_string w fuel p s = Done tt s' /\
              emitted s s' (dquote ++ chars (firstn (Z.to_nat MAX_STRING_LEN) cs) ++
                            (if MAX_STRING_LEN <? Z.of_nat (List.length cs)
                             then "..." else "") ++ dquote)).
  { intros Hend.
    destruct (intercept_scan_length w p cs fuel s) as (s1 & W1 & E1); try assumption.
    unfold Intercept.print_string. unfold bind at 1. rewrite E1.
    unfold bind at 1, fprintf at 1.
    destruct (print_chars_run w p (Z.to_nat MAX_STRING_LEN) cs 0 (write_out dquote s1)
                (Z.of_nat (List.length cs))) as (s2 & W2 & E2).
    { now rewrite Z.add_0_r. }
    { reflexivity. }
    unfold bind at 1. rewrite E2. cbn [Z.add].
    set (i := Z.of_nat (Nat.min (Z.to_nat MAX_STRING_LEN) (List.length cs))).
    assert (Ecut : (i >=? MAX_STRING_LEN) && (i <? Z.of_nat (List.length cs))
                   = (MAX_STRING_LEN <? Z.of_nat (List.length cs))).
    { unfold i, MAX_STRING_LEN in *.
      destruct (Z.geb_spec (Z.of_nat (Nat.min (Z.to_nat 25) (List.length cs))) 25),
        (Z.ltb_spec (Z.of_nat (Nat.min (Z.to_nat 25) (List.length cs)))
                    (Z.of_nat (List.length cs))),
        (Z.ltb_spec 25 (Z.of_nat (List.length cs))); cbn; try reflexivity; lia. }
    rewrite Ecut.
    assert (W12 : emitted s s2 (dquote ++ chars (firstn (Z.to_nat MAX_STRING_LEN) cs))).
    { eapply emitted_nil_trans; [exact W1 |].
      eapply emitted_trans; [apply emitted_write_out | apply wrote_emitted, W2]. }
    destruct (MAX_STRING_LEN <? Z.of_nat (List.length cs)).
    - eexists. split; [reflexivity |].
      rewrite <- append_assoc.
      eapply emitted_trans; [exact W12 |].
      eapply emitted_trans; apply emitted_write_out.
    - eexists. split; [reflexivity |].
      rewrite <- append_assoc.
      eapply emitted_trans; [exact W12 |].
      cbn [append]. apply emitted_write_out. }
  split; [| split; [| split]].
  - eexists. split; [reflexivity |].
    eapply emitted_nil_trans; [apply emitted_set_jump | apply emitted_write_out].
  - intros Hend Hle. destruct (Quoted Hend) as (s' & E & W).
    exists s'. split; [exact E |].
    destruct (Z.ltb_spec MAX_STRING_LEN (Z.of_nat (List.length cs))); [lia |].
    rewrite firstn_all2 in W by (unfold MAX_STRING_LEN in *; lia). exact W.
  - intros Hend Hgt. destruct (Quoted Hend) as (s' & E & W).
    exists s'. split; [exact E |].
    destruct (Z.ltb_spec MAX_STRING_LEN (Z.of_nat (List.length cs))); [exact W | lia].
  - intros Hbreak.
    destruct (intercept_scan_break w p cs fuel s) as (s1 & W1 & E1); try assumption.
    unfold Intercept.print_string. unfold bind at 1. rewrite E1.
    eexists. split; [reflexivity |].
    eapply emitted_nil_trans; [exact W1 | apply emitted_write_out].
Qed.

Lemma intercept_print_string_rendering_witness :
  let w := demo_world (poke_str 3000 "hi" unmapped) 0 in
  (exists s', Intercept.print_string w 10 3000 initial = Done tt s' /\
              emitted initial s' (dquote ++ chars (bytes_of "hi") ++ dquote)) /\
  (exists s', Intercept.print_string w 10 3001 initial = Done tt s' /\
              emitted initial s' (dquote ++ chars (bytes_of "i") ++ dquote)).
Proof.
  cbn zeta. split.
  - destruct (intercept_print_string_rendering
                (demo_world (poke_str 3000 "hi" unmapped) 0)
                10 3000 (bytes_of "hi") initial) as (_ & Q & _).
    + lia.
    + vm_compute. tauto.
    + vm_compute. reflexivity.
    + vm_compute. lia.
    + apply Q; [reflexivity | vm_compute; discriminate].
  - destruct (intercept_print_string_rendering
                (demo_world (poke_str 3000 "hi" unmapped) 0)
                10 3001 (bytes_of "i") initial) as (_ & Q & _).
    + lia.
    + vm_compute. tauto.
    + vm_compute. reflexivity.
    + vm_compute. lia.
    + apply Q; [reflexivity | vm_compute; discriminate].
Defined.

(** ** A failed [open] *)

(** X6.  When the probe descriptor is bad ([open] failed and left a negative
    [fd]), [isvalid] refuses every address: [print_string] of
    [src/traceback/traceback.c] loads nothing and writes the raw pointer,
    whatever the pointer points at. *)
Theorem probe_print_string_bad_descriptor w fuel p s :
  fd s < 0 -> (0 < fuel)%nat ->
  Probe.print_string w fuel p s = Done tt (write_out (fmt_alt_x p) s).
Proof.
  intros Hfd Hfuel. unfold Probe.print_string, Probe.is_string_print.
  destruct (p =? 0); [reflexivity |].
  destruct fuel as [| fuel]; [lia |].
  cbn [Probe.is_string_print_loop].
  unfold bind, Probe.isvalid, Probe.sys_write.
  destruct (Z.ltb_spec (fd s) 0); [reflexivity | lia].
Qed.

Lemma probe_print_string_bad_descriptor_witness :
  Probe.print_string demo 10 3000 (final (set_fd (-1) initial)) =
    Done tt (write_out "0xbb8" (final (set_fd (-1) initial))).
Proof.
  apply (probe_print_string_bad_descriptor demo 10 3000 (final (set_fd (-1) initial)));
    [reflexivity | apply Nat.lt_0_succ].
Defined.

(** ** [print_string_array] of the fault-interception revision on an
    unreadable array *)

Lemma try_elements_fault w p : forall n es i s,
  array_at w (p + 4 * i) es -> (List.length es < n)%nat ->
  word_at w (p + 4 * (i + Z.of_nat (List.length es))) = None ->
  exists s', wrote s s' "" /\ Intercept.try_elements w n i p s = Fault s'.
Proof.
  induction n as [| n IH]; intros es i s Harr Hn Hv; [lia |].
  cbn [Intercept.try_elements]. destruct es as [| e es].
  - cbn [List.length Z.of_nat] in Hv. rewrite Z.add_0_r in Hv.
    unfold bind at 1, load32 at 1. rewrite Hv.
    eexists. split; [apply wrote_log_read | reflexivity].
  - destruct Harr as (He & Hnz & Harr). cbn [List.length] in *.
    unfold bind at 1, load32 at 1. rewrite He.
    destruct (Z.eqb_spec e 0); [contradiction |].
    destruct (IH es (i + 1) (log_read (wrap (p + 4 * i)) s)) as (s' & W & E).
    + now replace (p + 4 * (i + 1)) with (p + 4 * i + 4) by lia.
    + lia.
    + rewrite <- Hv. f_equal. lia.
    + exists s'. split; [| exact E].
      eapply wrote_nil_trans; [apply wrote_log_read | exact W].
Qed.

(** X7.  In the fault-interception revision, an array pointer whose
    elements cannot all be read up to the first null one or the cap makes
    [print_string_array] write the pointer itself ([%#x]) and nothing else --
    no brace, no element -- and return: the trial loop meets the fault
    before anything is printed. *)
Theorem intercept_array_unreadable w fuel p es s :
  p <> 0 -> array_at w p es ->
  Z.of_nat (List.length es) < MAX_ARRAY_LEN ->
  word_at w (p + 4 * Z.of_nat (List.length es)) = None ->
  exists s', Intercept.print_string_array w fuel p s = Done tt s' /\
             emitted s s' (fmt_alt_x p).
Proof.
  intros Hp Harr Hlen Hv.
  unfold Intercept.print_string_array, sigsetjmp.
  destruct (Z.eqb_spec p 0); [contradiction |].
  destruct (try_elements_fault w p (Z.to_nat MAX_ARRAY_LEN) es 0
              (set_jump J_print_string_array s)) as (s1 & W & E).
  { now rewrite Z.mul_0_r, Z.add_0_r. }
  { unfold MAX_ARRAY_LEN in *. lia. }
  { exact Hv. }
  unfold bind at 1. rewrite E. cbn [resume].
  rewrite (w_jump _ _ _ W). cbn.
  eexists. split; [reflexivity |].
  eapply emitted_nil_trans; [apply emitted_set_jump |].
  eapply emitted_nil_trans; [apply wrote_emitted, W | apply emitted_write_out].
Qed.

Lemma intercept_array_unreadable_witness :
  exists s', Intercept.print_string_array demo 10 5000 initial = Done tt s' /\
             emitted initial s' "0x1388".
Proof.
  apply (intercept_array_unreadable demo 10 5000 [] initial);
    [lia | exact I | vm_compute; reflexivity | reflexivity].
Defined.

(** ** [print_arguments] *)

Section ArgumentList.

Variable w : world.
Variable print_string print_string_array : Z -> M unit.
Variable fdv : Z.
Variable function : functsym_t.
Variable ebp : Z.

(** The loop over the arguments from index [i] on: [ts] are the texts of
    the named arguments it meets before an unnamed one or the end of the
    array. *)
Lemma print_arguments_loop_run : forall n ts i s,
  Z.of_nat n = ARGS_MAX_NUM w - i -> 0 <= i ->
  (List.length ts <= n)%nat ->
  (forall j, 0 <= j < Z.of_nat (List.length ts) ->
     nonempty (arg_name (arg_at function (i + j))) = true /\
     argument_rule (print_argument w print_string print_string_array) fdv ebp
       (arg_at function (i + j)) (nth (Z.to_nat j) ts ""%string)) ->
  ((List.length ts < n)%nat ->
   nonempty (arg_name (arg_at function (i + Z.of_nat (List.length ts)))) = false) ->
  fd s = fdv ->
  exists s', emitted s s' (joined i ts) /\
    print_arguments_loop w print_string print_string_array n i function ebp s =
      Done (i + Z.of_nat (List.length ts)) s'.
Proof.
  induction n as [| n IH]; intros ts i s Hn Hi Hlen Hargs Hend Hfd;
    cbn [print_arguments_loop].
  - destruct ts; [| cbn in Hlen; lia].
    exists s. split; [apply emitted_refl |]. cbn. unfold ret. now rewrite Z.add_0_r.
  - destruct ts as [| t ts].
    + cbn [List.length Z.of_nat] in *. rewrite Z.add_0_r in *.
      rewrite (Hend ltac:(lia)).
      exists s. split; [apply emitted_refl | reflexivity].
    + cbn [List.length] in *.
      destruct (Hargs 0 ltac:(lia)) as [Hname Hrule].
      rewrite Z.add_0_r in Hname, Hrule. rewrite Hname.
      unfold bind at 1.
      assert (Sep : exists s1, (if 0 <? i then fprintf ", " else ret tt) s = Done tt s1 /\
                               emitted s s1 (if 0 <? i then ", " else "")).
      { destruct (0 <? i); eexists; (split; [reflexivity |]);
          [apply emitted_write_out | apply emitted_refl]. }
      destruct Sep as (s1 & E1 & W1). rewrite E1.
      unfold bind at 1.
      destruct (Hrule s1) as (s2 & E2 & W2).
      { rewrite (e_fd _ _ _ W1). exact Hfd. }
      cbn [nth Z.to_nat] in E2, W2. rewrite E2.
      destruct (IH ts (i + 1) s2) as (s3 & W3 & E3); try lia.
      * intros j Hj. specialize (Hargs (j + 1) ltac:(lia)).
        replace (i + (j + 1)) with (i + 1 + j) in Hargs by lia.
        replace (Z.to_nat (j + 1)) with (S (Z.to_nat j)) in Hargs by lia.
        exact Hargs.
      * intros L. replace (i + 1 + Z.of_nat (List.length ts))
          with (i + Z.of_nat (S (List.length ts))) by lia.
        apply Hend. lia.
      * rewrite (e_fd _ _ _ W2), (e_fd _ _ _ W1). exact Hfd.
      * exists s3. split.
        -- cbn [joined]. eapply emitted_trans; [exact W1 |].
           eapply emitted_trans; [exact W2 | exact W3].
        -- rewrite E3. f_equal. lia.
Qed.

End ArgumentList.

(** X8.  [print_arguments] writes the arguments in the order of the
    descriptor, with [", "] between them: the named entries of
    [function.args] up to the first unnamed one, and at most [ARGS_MAX_NUM]
    of them; each contributes what the [switch] writes for it.  For a
    function whose first argument entry is unnamed it writes [void]. *)
Theorem print_arguments_joined w print_string print_string_array fdv function ebp ts s :
  Z.of_nat (List.length ts) <= ARGS_MAX_NUM w ->
  (forall j, 0 <= j < Z.of_nat (List.length ts) ->
     nonempty (arg_name (arg_at function j)) = true /\
     argument_rule (print_argument w print_string print_string_array) fdv ebp
       (arg_at function j) (nth (Z.to_nat j) ts ""%string)) ->
  (Z.of_nat (List.length ts) < ARGS_MAX_NUM w ->
   nonempty (arg_name (arg_at function (Z.of_nat (List.length ts)))) = false) ->
  fd s = fdv ->
  exists s',
    print_arguments w print_string print_string_array function ebp s = Done tt s' /\
    emitted s s' (match ts with [] => "void"%string | _ => comma_join ts end).
Proof.
  intros Hcap Hargs Hend Hfd. unfold print_arguments.
  destruct (print_arguments_loop_run w print_string print_string_array fdv function ebp
              (Z.to_nat (ARGS_MAX_NUM w)) ts 0 s) as (s1 & W1 & E1);
    try assumption; try lia.
  { intros L. apply Hend. lia. }
  unfold bind at 1. rewrite E1. cbn [Z.add].
  destruct ts as [| t ts].
  - cbn. eexists. split; [reflexivity |].
    eapply emitted_nil_trans; [exact W1 | apply emitted_write_out].
  - cbn [List.length].
    destruct (Z.eqb_spec (Z.of_nat (S (List.length ts))) 0); [lia |].
    exists s1. split; [reflexivity | exact W1].
Qed.

Lemma print_arguments_joined_witness :
  exists s',
    Intercept.print_arguments demo 10 (funct_at demo 2) 1100 initial = Done tt s' /\
    emitted initial s' (comma_join ["int x=5"; "char *s=" ++ quoted "hi"]%string).
Proof.
  apply (print_arguments_joined demo (Intercept.print_string demo 10)
           (Intercept.print_string_array demo 10) 0 (funct_at demo 2) 1100
           ["int x=5"; "char *s=" ++ quoted "hi"]%string initial).
  - cbn. lia.
  - intros j Hj. cbn [List.length] in Hj.
    assert (j = 0 \/ j = 1) as [-> | ->] by lia;
      (split; [reflexivity |]);
      intros [o e r t f jt] Hfd; cbn in Hfd; subst f;
      (eexists; split; [vm_compute; reflexivity |]);
      (split; cbn; rewrite ?append_assoc; reflexivity).
  - intros _. reflexivity.
  - reflexivity.
Defined.

(** ** The walk over a whole stack *)

Lemma named_line_then f targs rest :
  (named_line f targs ++ rest)%string =
  (("Function " ++ name f ++ "(") ++ targs ++ ("), in" ++ newline) ++ rest)%string.
Proof. unfold named_line. rewrite !append_assoc. reflexivity. Qed.

Lemma intercept_walk w fuel ebp lines :
  intercept_stack w fuel ebp lines ->
  forall steps s, (List.length lines < steps)%nat ->
  exists s', Intercept.traceback_loop w fuel steps ebp s = Done tt s' /\
             emitted s s' (text_of lines).
Proof.
  induction 1 as [| ebp old ra lines Hnz Hold Hra Hok Hres _ IH
                  | ebp old ra operand targs lines Hnz Hold Hra Hok Hres Hop Hargs _ IH];
    intros steps s Hsteps; (destruct steps as [| steps]; [cbn in Hsteps; lia |]);
    cbn [Intercept.traceback_loop]; unfold sigsetjmp.
  - cbn [Z.eqb]. eexists. split; [reflexivity | apply emitted_set_jump].
  - destruct (Z.eqb_spec ebp 0); [contradiction |].
    unfold bind at 1, load32 at 1. rewrite Hold.
    unfold bind at 1, load32 at 1. rewrite Hra.
    assert (negb (old =? 0) && (ebp >=? old) = false) as ->.
    { destruct (Z.eqb_spec old 0); [reflexivity |].
      destruct (Z.geb_spec ebp old); [lia | reflexivity]. }
    unfold bind at 1, with_tbl at 1.
    destruct (Z.ltb_spec (fst (Intercept.get_index w (sint ra))) 0); [| lia].
    unfold bind at 1, fprintf at 1.
    match goal with |- context [Intercept.traceback_loop w fuel steps old ?s1] =>
      destruct (IH steps s1 ltac:(cbn in Hsteps; lia)) as (s' & E & W);
      rewrite E; exists s'; split; [reflexivity |]
    end.
    cbn [text_of]. fold (raw_line (sint ra)).
    eapply emitted_nil_trans; [apply emitted_set_jump |].
    eapply emitted_nil_trans; [apply emitted_log_read |].
    eapply emitted_nil_trans; [apply emitted_log_read |].
    eapply emitted_nil_trans; [apply wrote_emitted, wrote_log_tbl |].
    eapply emitted_trans; [apply emitted_write_out | exact W].
  - destruct (Z.eqb_spec ebp 0); [contradiction |].
    unfold bind at 1, load32 at 1. rewrite Hold.
    unfold bind at 1, load32 at 1. rewrite Hra.
    assert (negb (old =? 0) && (ebp >=? old) = false) as ->.
    { destruct (Z.eqb_spec old 0); [reflexivity |].
      destruct (Z.geb_spec ebp old); [lia | reflexivity]. }
    unfold bind at 1, with_tbl at 1.
    destruct (Z.ltb_spec (fst (Intercept.get_index w (sint ra))) 0); [lia |].
    rewrite bind_assoc. unfold bind at 1, with_tbl at 1. cbn [fst snd].
    rewrite bind_assoc. unfold bind at 1, load32 at 1. rewrite Hop.
    rewrite bind_assoc. unfold bind at 1, with_tbl at 1.
    rewrite bind_assoc. unfold bind at 1, fprintf at 1.
    rewrite bind_assoc. unfold bind at 1.
    match goal with |- context [Intercept.print_arguments w fuel _ old ?s1] =>
      destruct (Hargs s1 eq_refl) as (s2 & E2 & W2); rewrite E2;
      assert (W1 : emitted s s1
                     ("Function " ++
                      name (funct_at w (fst (Intercept.get_index w (sint ra)))) ++ "("))
    end.
    { eapply emitted_nil_trans; [apply emitted_set_jump |].
      eapply emitted_nil_trans; [apply emitted_log_read |].
      eapply emitted_nil_trans; [apply emitted_log_read |].
      eapply emitted_nil_trans; [apply wrote_emitted, wrote_log_tbl |].
      eapply emitted_nil_trans; [apply wrote_emitted, wrote_log_tbl |].
      eapply emitted_nil_trans; [apply emitted_log_read |].
      eapply emitted_nil_trans; [apply wrote_emitted, wrote_log_tbl |].
      apply emitted_write_out. }
    unfold bind at 1, fprintf at 1.
    match goal with |- context [Intercept.traceback_loop w fuel steps old ?s3] =>
      destruct (IH steps s3 ltac:(cbn in Hsteps; lia)) as (s' & E & W);
      rewrite E; exists s'; split; [reflexivity |]
    end.
    cbn [text_of]. rewrite named_line_then.
    eapply emitted_trans; [exact W1 |].
    eapply emitted_trans; [exact W2 |].
    eapply emitted_trans; [apply emitted_write_out | exact W].
Qed.

Lemma probe_walk w fuel fdv ebp lines :
  probe_stack w fuel fdv ebp lines ->
  forall steps s, fd s = fdv -> (List.length lines < steps)%nat ->
  exists s', Probe.traceback_loop w fuel steps ebp s = Done tt s' /\
             emitted s s' (text_of lines).
Proof.
  induction 1 as [ ebp old ra Hold Hra Hle
                 | ebp old ra operand Hold Hra Hlt Hres Hop Hmain
                 | ebp old ra lines Hold Hra Hlt Hres _ IH
                 | ebp old ra operand targs lines Hold Hra Hlt Hres Hop Hmain Hargs _ IH ];
    intros steps s Hfd Hsteps; (destruct steps as [| steps]; [cbn in Hsteps; lia |]);
    cbn [Probe.traceback_loop];
    unfold bind at 1, load32 at 1; rewrite Hold;
    unfold bind at 1, load32 at 1; rewrite Hra.
  - destruct (Z.geb_spec ebp old); [| lia].
    eexists. split; [reflexivity |]. cbn [text_of]. rewrite append_nil_r.
    eapply emitted_nil_trans; [apply emitted_log_read |].
    eapply emitted_nil_trans; [apply emitted_log_read |].
    apply emitted_write_out.
  - destruct (Z.geb_spec ebp old); [lia |].
    unfold bind at 1, with_tbl at 1.
    destruct (Z.ltb_spec (fst (Probe.get_index w (sint ra))) 0); [lia |].
    unfold bind at 1, with_tbl at 1. cbn [fst snd].
    unfold bind at 1, load32 at 1. rewrite Hop.
    unfold bind at 1, with_tbl at 1. fold (exit_address (sint ra) operand).
    unfold bind at 1, with_tbl at 1. rewrite Hmain.
    eexists. split; [reflexivity |]. cbn [text_of].
    apply wrote_emitted. peel_logs.
  - destruct (Z.geb_spec ebp old); [lia |].
    unfold bind at 1, with_tbl at 1.
    destruct (Z.ltb_spec (fst (Probe.get_index w (sint ra))) 0); [| lia].
    unfold bind at 1, fprintf at 1.
    match goal with |- context [Probe.traceback_loop w fuel steps old ?s1] =>
      destruct (IH steps s1 Hfd ltac:(cbn in Hsteps; lia)) as (s' & E & W);
      rewrite E; exists s'; split; [reflexivity |]
    end.
    cbn [text_of]. fold (raw_line (sint ra)).
    eapply emitted_nil_trans; [apply emitted_log_read |].
    eapply emitted_nil_trans; [apply emitted_log_read |].
    eapply emitted_nil_trans; [apply wrote_emitted, wrote_log_tbl |].
    eapply emitted_trans; [apply emitted_write_out | exact W].
  - destruct (Z.geb_spec ebp old); [lia |].
    unfold bind at 1, with_tbl at 1.
    destruct (Z.ltb_spec (fst (Probe.get_index w (sint ra))) 0); [lia |].
    unfold bind at 1, with_tbl at 1. cbn [fst snd].
    unfold bind at 1, load32 at 1. rewrite Hop.
    unfold bind at 1, with_tbl at 1. fold (exit_address (sint ra) operand).
    unfold bind at 1, with_tbl at 1. rewrite Hmain.
    unfold bind at 1, fprintf at 1.
    unfold bind at 1.
    match goal with |- context [Probe.print_arguments w fuel _ old ?s1] =>
      destruct (Hargs s1 Hfd) as (s2 & E2 & W2); rewrite E2;
      assert (W1 : emitted s s1
                     ("Function " ++
                      name (funct_at w (fst (Probe.get_index w (sint ra)))) ++ "("))
    end.
    { eapply emitted_trans_nil; [| apply emitted_refl].
      eapply emitted_nil_trans; [| apply emitted_write_out].
      apply wrote_emitted. peel_logs. }
    unfold bind at 1, fprintf at 1.
    match goal with |- context [Probe.traceback_loop w fuel steps old ?s3] =>
      destruct (IH steps s3) as (s' & E & W);
        [ cbn; rewrite (e_fd _ _ _ W2); exact Hfd
        | cbn in Hsteps; lia
        | rewrite E; exists s'; split; [reflexivity |] ]
    end.
    cbn [text_of]. rewrite named_line_then.
    eapply emitted_trans; [exact W1 |].
    eapply emitted_trans; [exact W2 |].
    eapply emitted_trans; [apply emitted_write_out | exact W].
Qed.

(** X9.  The fault-interception revision on a whole stack: when the handler
    is installed and the frames from the initial frame pointer down to the
    null one are readable and in ascending order, [traceback] returns having
    written one line per frame, innermost first -- the raw-address line for a
    return address that resolves to nothing, the function's name around its
    arguments for one that resolves -- and nothing after the last. *)
Theorem intercept_traceback_lines w fuel steps lines s :
  0 <= sigaction_ret w -> 0 <= sigprocmask_ret w ->
  intercept_stack w fuel (wrap (trace_init_ebp w)) lines ->
  (List.length lines < steps)%nat ->
  exists s', Intercept.traceback w fuel steps s = Done tt s' /\
             emitted s s' (text_of lines).
Proof.
  intros Ha Hm Hstack Hsteps.
  unfold Intercept.traceback, Intercept.SIGSEGV_handler_setup.
  destruct (Z.ltb_spec (sigaction_ret w) 0); [lia |].
  destruct (Z.ltb_spec (sigprocmask_ret w) 0); [lia |].
  unfold bind at 1, ret at 1.
  apply (intercept_walk w fuel _ lines Hstack steps s Hsteps).
Qed.

(** X10.  [src/traceback/traceback.c] on a whole stack: [traceback] puts the
    result of [open] in [fd] and writes one line per frame, innermost first,
    as long as each frame saves a frame pointer above its own; it returns
    without a further line at the first frame that [is_main] takes for the
    end, and with the line [FATAL: Stack Wrong!] at the first frame whose
    saved frame pointer is not above its own. *)
Theorem probe_traceback_lines w fuel steps lines s :
  probe_stack w fuel (open_ret w) (wrap (trace_init_ebp w)) lines ->
  (List.length lines < steps)%nat ->
  exists s', Probe.traceback w fuel steps s = Done tt s' /\
             out s' = (out s ++ text_of lines)%string /\ fd s' = open_ret w.
Proof.
  intros Hstack Hsteps. unfold Probe.traceback.
  unfold bind at 1, set_fd at 1. unfold bind at 1.
  match goal with |- context [(if open_ret w <? 0 then _ else _) ?s0] =>
    assert (Pre : exists s1, (if open_ret w <? 0
                              then fprintf_stderr "open random file failed"
                              else ret tt) s0 = Done tt s1 /\
                             out s1 = out s /\ fd s1 = open_ret w)
  end.
  { destruct (open_ret w <? 0); eexists; (split; [reflexivity |]); split; reflexivity. }
  destruct Pre as (s1 & E1 & O1 & F1). rewrite E1.
  destruct (probe_walk w fuel (open_ret w) _ lines Hstack steps s1 F1 Hsteps)
    as (s' & E & W).
  exists s'. split; [exact E |]. split.
  - rewrite (e_out _ _ _ W), O1. reflexivity.
  - rewrite (e_fd _ _ _ W). exact F1.
Qed.

Lemma intercept_traceback_lines_witness :
  exists s', Intercept.traceback demo 10 10 initial = Done tt s' /\
    emitted initial s'
      (text_of [ named_line (funct_at demo 2) ("int x=5, char *s=" ++ quoted "hi");
                 named_line (funct_at demo 1)
                   ("char **v={" ++ quoted "hi" ++ ", " ++ quoted "there" ++ "}");
                 named_line (funct_at demo 0) "void";
                 raw_line 77 ]).
Proof.
  apply (intercept_traceback_lines demo 10 10); [cbn; lia | cbn; lia | | cbn; lia].
  change (wrap (trace_init_ebp demo)) with 1000.
  apply (is_named demo 10 1000 1100 4410 1000); try reflexivity; try lia;
    try (right; lia); try (apply Z.leb_le; vm_compute; reflexivity); [|].
  { intros [o e r t f j] Hj; cbn in Hj; subst j.
    eexists; split; [vm_compute; reflexivity |].
    split; cbn; rewrite ?append_assoc; reflexivity. }
  apply (is_named demo 10 1100 1200 4210 0); try reflexivity; try lia;
    try (right; lia); try (apply Z.leb_le; vm_compute; reflexivity); [|].
  { intros [o e r t f j] Hj; cbn in Hj; subst j.
    eexists; split; [vm_compute; reflexivity |].
    split; cbn; rewrite ?append_assoc; reflexivity. }
  apply (is_named demo 10 1200 1300 4100 0); try reflexivity; try lia;
    try (right; lia); try (apply Z.leb_le; vm_compute; reflexivity); [|].
  { intros [o e r t f j] Hj; cbn in Hj; subst j.
    eexists; split; [vm_compute; reflexivity |].
    split; cbn; rewrite ?append_assoc; reflexivity. }
  apply (is_raw demo 10 1300 0 77); try reflexivity; try lia;
    try (left; reflexivity).
  apply is_bottom.
Defined.

Lemma probe_traceback_lines_witness :
  exists s', Probe.traceback demo 10 10 initial = Done tt s' /\
    out s' = (out initial ++
              text_of [ named_line (funct_at demo 2) ("int x=5, char *s=" ++ quoted "hi");
                        named_line (funct_at demo 1)
                          ("char **v={" ++ quoted "hi" ++ ", " ++ quoted "there" ++ "}")
                      ])%string /\
    fd s' = open_ret demo.
Proof.
  apply (probe_traceback_lines demo 10 10); [| cbn; lia].
  change (wrap (trace_init_ebp demo)) with 1000.
  apply (ps_named demo 10 3 1000 1100 4410 1000); try reflexivity; try lia;
    try (apply Z.leb_le; vm_compute; reflexivity); [|].
  { intros [o e r t f j] Hf; cbn in Hf; subst f.
    eexists; split; [vm_compute; reflexivity |].
    split; cbn; rewrite ?append_assoc; reflexivity. }
  apply (ps_named demo 10 3 1100 1200 4210 0); try reflexivity; try lia;
    try (apply Z.leb_le; vm_compute; reflexivity); [|].
  { intros [o e r t f j] Hf; cbn in Hf; subst f.
    eexists; split; [vm_compute; reflexivity |].
    split; cbn; rewrite ?append_assoc; reflexivity. }
  apply (ps_main demo 10 3 1200 1300 4100 0); try reflexivity; try lia;
    try (apply Z.leb_le; vm_compute; reflexivity).
Defined.

(** ** Frames the walk cannot read *)

(** X11.  In the fault-interception revision a frame that cannot be read
    ends the walk quietly: when the frame pointer is not null and one of the
    two words of the frame is unmapped, or the return address resolves and
    the operand word of the exit heuristic is unmapped, the fault comes back
    to the [sigsetjmp] of the turn and [traceback]'s loop returns without
    having written anything for that frame -- no line, no diagnostic. *)
Theorem intercept_unreadable_frame w fuel steps ebp s :
  ebp <> 0 ->
  word_at w ebp = None \/
  (exists old, word_at w ebp = Some old /\ word_at w (ebp + 4) = None) \/
  (exists old ra, word_at w ebp = Some old /\ word_at w (ebp + 4) = Some ra /\
                  (old = 0 \/ ebp < old) /\
                  0 <= fst (Intercept.get_index w (sint ra)) /\
                  word_at w (sint ra + 4) = None) ->
  exists s', Intercept.traceback_loop w fuel (S steps) ebp s = Done tt s' /\
             emitted s s' "".
Proof.
  intros Hnz Hcase. cbn [Intercept.traceback_loop]. unfold sigsetjmp.
  destruct (Z.eqb_spec ebp 0); [contradiction |].
  destruct Hcase as [H0 | [(old & Hold & H1) | (old & ra & Hold & Hra & Hok & Hres & Hop)]].
  - unfold bind at 1, load32 at 1. rewrite H0. cbn.
    eexists. split; [reflexivity |].
    eapply emitted_nil_trans; [apply emitted_set_jump | apply emitted_log_read].
  - unfold bind at 1, load32 at 1. rewrite Hold.
    unfold bind at 1, load32 at 1. rewrite H1. cbn.
    eexists. split; [reflexivity |].
    eapply emitted_nil_trans; [apply emitted_set_jump |].
    eapply emitted_nil_trans; apply emitted_log_read.
  - unfold bind at 1, load32 at 1. rewrite Hold.
    unfold bind at 1, load32 at 1. rewrite Hra.
    assert (negb (old =? 0) && (ebp >=? old) = false) as ->.
    { destruct (Z.eqb_spec old 0); [reflexivity |].
      destruct (Z.geb_spec ebp old); [lia | reflexivity]. }
    unfold bind at 1, with_tbl at 1.
    destruct (Z.ltb_spec (fst (Intercept.get_index w (sint ra))) 0); [lia |].
    rewrite bind_assoc. unfold bind at 1, with_tbl at 1. cbn [fst snd].
    rewrite bind_assoc. unfold bind at 1, load32 at 1. rewrite Hop. cbn.
    eexists. split; [reflexivity |].
    eapply emitted_nil_trans; [apply emitted_set_jump |].
    apply wrote_emitted. peel_logs.
Qed.

Lemma intercept_unreadable_frame_witness :
  exists s', Intercept.traceback_loop (demo_world unmapped 0) 10 1 1000 initial
             = Done tt s' /\ emitted initial s' "".
Proof.
  apply (intercept_unreadable_frame (demo_world unmapped 0) 10 0 1000 initial);
    [lia | left; reflexivity].
Defined.

(** ** [trace_init_ebp] *)

Lemma word_bytes v :
  0 <= v < 2 ^ 32 ->
  v mod 256 mod 256 + 2 ^ 8 * (v / 2 ^ 8 mod 256 mod 256)
  + 2 ^ 16 * (v / 2 ^ 16 mod 256 mod 256) + 2 ^ 24 * (v / 2 ^ 24 mod 256 mod 256) = v.
Proof.
  intros Hv. rewrite !Z.mod_mod by lia.
  change (2 ^ 8) with 256. change (2 ^ 16) with 65536.
  change (2 ^ 24) with 16777216. change (2 ^ 32) with 4294967296 in Hv.
  Z.div_mod_to_equations. lia.
Qed.

(** A word stored is the word loaded, and bytes elsewhere are as before. *)
Lemma mem_store_load m a v m' :
  0 <= a <= 2 ^ 32 - 4 -> 0 <= v < 2 ^ 32 ->
  mem_store m a v = Some m' ->
  mem_word m' a = Some v /\
  (forall x, ~ a <= x < a + 4 -> m' x = m x).
Proof.
  intros Ha Hv. unfold mem_store.
  destruct (mem_word m a); [| discriminate]. intros E.
  assert (m' = poke8 (wrap a) (v mod 256)
           (poke8 (wrap (a + 1)) (v / 2 ^ 8 mod 256)
           (poke8 (wrap (a + 2)) (v / 2 ^ 16 mod 256)
           (poke8 (wrap (a + 3)) (v / 2 ^ 24 mod 256) m)))) as -> by congruence.
  clear E.
  assert (W0 : wrap a = a) by (unfold wrap; apply Z.mod_small; lia).
  assert (W1 : wrap (a + 1) = a + 1) by (unfold wrap; apply Z.mod_small; lia).
  assert (W2 : wrap (a + 2) = a + 2) by (unfold wrap; apply Z.mod_small; lia).
  assert (W3 : wrap (a + 3) = a + 3) by (unfold wrap; apply Z.mod_small; lia).
  split.
  - unfold mem_word, poke8. rewrite W0, W1, W2, W3.
    rewrite (Z.eqb_refl a).
    destruct (Z.eqb_spec (a + 1) a); [lia |]. rewrite (Z.eqb_refl (a + 1)).
    destruct (Z.eqb_spec (a + 2) a); [lia |].
    destruct (Z.eqb_spec (a + 2) (a + 1)); [lia |]. rewrite (Z.eqb_refl (a + 2)).
    destruct (Z.eqb_spec (a + 3) a); [lia |].
    destruct (Z.eqb_spec (a + 3) (a + 1)); [lia |].
    destruct (Z.eqb_spec (a + 3) (a + 2)); [lia |]. rewrite (Z.eqb_refl (a + 3)).
    f_equal. apply word_bytes. exact Hv.
  - intros x Hx. unfold poke8. rewrite W0, W1, W2, W3.
    destruct (Z.eqb_spec x a); [lia |].
    destruct (Z.eqb_spec x (a + 1)); [lia |].
    destruct (Z.eqb_spec x (a + 2)); [lia |].
    destruct (Z.eqb_spec x (a + 3)); [lia |]. reflexivity.
Qed.

Lemma mem_word_outside m m' a b :
  0 <= a <= 2 ^ 32 - 4 -> 0 <= b <= 2 ^ 32 - 4 -> b + 4 <= a \/ a + 4 <= b ->
  (forall x, ~ a <= x < a + 4 -> m' x = m x) ->
  mem_word m' b = mem_word m b.
Proof.
  intros Ha Hb Hd Hsame. unfold mem_word.
  assert (W0 : wrap b = b) by (unfold wrap; apply Z.mod_small; lia).
  assert (W1 : wrap (b + 1) = b + 1) by (unfold wrap; apply Z.mod_small; lia).
  assert (W2 : wrap (b + 2) = b + 2) by (unfold wrap; apply Z.mod_small; lia).
  assert (W3 : wrap (b + 3) = b + 3) by (unfold wrap; apply Z.mod_small; lia).
  rewrite W0, W1, W2, W3.
  rewrite !Hsame by lia. reflexivity.
Qed.

(** X13.  [trace_init_ebp] hands back, in [%eax], the frame pointer its
    caller had at the [call], and returns to the caller with [%ebp] as it
    was and [%esp] past the return address; of the memory it changes only
    the word it pushed, below the return address. *)
Theorem trace_init_ebp_returns_caller_frame r m ret_addr below :
  4 <= esp r <= 2 ^ 32 - 8 -> 0 <= ebp r < 2 ^ 32 ->
  mem_word m (esp r) = Some ret_addr ->
  mem_word m (esp r - 4) = Some below ->
  exists m',
    trace_init_ebp_S r m =
      Some ({| eax := ebp r; esp := esp r + 4; ebp := ebp r; eip := ret_addr |}, m') /\
    forall x, ~ esp r - 4 <= x < esp r -> m' x = m x.
Proof.
  intros Hsp Hbp Hret Hbelow. unfold trace_init_ebp_S.
  assert (W : wrap (esp r - 4) = esp r - 4) by (unfold wrap; apply Z.mod_small; lia).
  rewrite W.
  destruct (mem_store m (esp r - 4) (ebp r)) as [m1 |] eqn:Es.
  2:{ unfold mem_store in Es. rewrite Hbelow in Es. discriminate. }
  destruct (mem_store_load m (esp r - 4) (ebp r) m1 ltac:(lia) Hbp Es) as [L Same].
  rewrite L.
  assert (W' : wrap (esp r - 4 + 4) = esp r).
  { unfold wrap. replace (esp r - 4 + 4) with (esp r) by lia. apply Z.mod_small. lia. }
  rewrite W'.
  rewrite (mem_word_outside m m1 (esp r - 4) (esp r)) by (try assumption; lia).
  rewrite Hret.
  assert (W'' : wrap (esp r + 4) = esp r + 4) by (unfold wrap; apply Z.mod_small; lia).
  rewrite W''.
  exists m1. split; [reflexivity |].
  intros x Hx. apply Same. lia.
Qed.

Lemma trace_init_ebp_returns_caller_frame_witness :
  exists m',
    trace_init_ebp_S {| eax := 0; esp := 996; ebp := 1000; eip := 0 |}
                     (poke32 992 0 (poke32 996 4300 demo_mem)) =
      Some ({| eax := 1000; esp := 1000; ebp := 1000; eip := 4300 |}, m') /\
    forall x, ~ 992 <= x < 996 -> m' x = poke32 992 0 (poke32 996 4300 demo_mem) x.
Proof.
  apply (trace_init_ebp_returns_caller_frame
           {| eax := 0; esp := 996; ebp := 1000; eip := 0 |}
           (poke32 992 0 (poke32 996 4300 demo_mem)) 4300 0);
    [cbn; lia | cbn; lia | reflexivity | reflexivity].
Defined.

(** ** Arguments that are not strings *)

Lemma wrap_wrap a : wrap (wrap a) = wrap a.
Proof. unfold wrap. apply Z.mod_mod. lia. Qed.

(** X14.  For an argument that is neither a string nor a string array,
    [print_arguments] loads from the argument's frame slot only (its first
    word, and the second for a [double]): the value of a [void *] is printed
    but never followed, and an argument of unknown type is printed as the
    address of its slot without any load at all. *)
Theorem scalar_argument_loads_slot_only w print_string print_string_array arg ebp s :
  type arg <> TYPE_STRING -> type arg <> TYPE_STRING_ARRAY ->
  let r := print_argument w print_string print_string_array arg ebp s in
  halted r = true /\
  (exists l, reads (final r) = (l ++ reads s)%list /\
             Forall (fun a => a = slot_of arg ebp \/ a = wrap (slot_of arg ebp + 4)) l) /\
  (type arg = TYPE_UNKNOWN ->
   r = Done tt (write_out ("UNKNOWN " ++ arg_name arg ++ "=" ++ fmt_alt_x (slot_of arg ebp)) s)).
Proof.
  intros Hs Ha. cbn zeta. unfold print_argument. fold (slot_of arg ebp).
  assert (Hw : wrap (slot_of arg ebp) = slot_of arg ebp)
    by (unfold slot_of; apply wrap_wrap).
  destruct (type arg) eqn:Et; try contradiction;
    (split; [| split; [| intros; try discriminate]]);
    unfold load64, bind, load8, load32; rewrite ?Hw.
  - destruct (byte_at w (slot_of arg ebp)); [| reflexivity].
    destruct (isprint (schar z)); reflexivity.
  - destruct (byte_at w (slot_of arg ebp));
      [destruct (isprint (schar z)) |];
      exists [slot_of arg ebp]; (split; [reflexivity | repeat constructor]).
  - destruct (word_at w (slot_of arg ebp)); reflexivity.
  - destruct (word_at w (slot_of arg ebp));
      exists [slot_of arg ebp]; (split; [reflexivity | repeat constructor]).
  - destruct (word_at w (slot_of arg ebp)); reflexivity.
  - destruct (word_at w (slot_of arg ebp));
      exists [slot_of arg ebp]; (split; [reflexivity | repeat constructor]).
  - destruct (word_at w (slot_of arg ebp)); [| reflexivity].
    destruct (word_at w (slot_of arg ebp + 4)); reflexivity.
  - destruct (word_at w (slot_of arg ebp)).
    + destruct (word_at w (slot_of arg ebp + 4));
        exists [wrap (slot_of arg ebp + 4); slot_of arg ebp];
        (split; [reflexivity |
           constructor; [right; reflexivity | constructor; [left; reflexivity | constructor]]]).
    + exists [slot_of arg ebp]. split; [reflexivity | repeat constructor].
  - destruct (word_at w (slot_of arg ebp)); reflexivity.
  - destruct (word_at w (slot_of arg ebp));
      exists [slot_of arg ebp]; (split; [reflexivity | repeat constructor]).
  - reflexivity.
  - exists []. split; [reflexivity | constructor].
  - reflexivity.
Qed.

Lemma scalar_argument_loads_slot_only_witness :
  let arg := {| type := TYPE_VOIDSTAR; offset := 12; arg_name := "p" |} in
  halted (print_argument demo (Probe.print_string demo 10)
            (Probe.print_string_array demo 10) arg 1100 initial) = true.
Proof.
  cbn zeta.
  apply (scalar_argument_loads_slot_only demo (Probe.print_string demo 10)
           (Probe.print_string_array demo 10)
           {| type := TYPE_VOIDSTAR; offset := 12; arg_name := "p" |} 1100 initial);
    discriminate.
Defined.

(** ** Where the process is ended *)

Lemma never_exits_bind {A B} (m : M A) (f : A -> M B) :
  never_exits m -> (forall a, never_exits (f a)) -> never_exits (bind m f).
Proof.
  intros Hm Hf s s'. unfold bind. specialize (Hm s).
  destruct (m s) as [a s1 | s1 | s1 |]; try discriminate.
  - apply Hf.
  - exfalso. apply (Hm s1). reflexivity.
Qed.

Lemma never_exits_ret {A} (a : A) : never_exits (ret a).
Proof. intros s s'. discriminate. Qed.

Lemma never_exits_fprintf t : never_exits (fprintf t).
Proof. intros s s'. discriminate. Qed.

Lemma never_exits_load8 w a : never_exits (load8 w a).
Proof. intros s s'. unfold load8. destruct (byte_at w a); discriminate. Qed.

Lemma never_exits_load32 w a : never_exits (load32 w a).
Proof. intros s s'. unfold load32. destruct (word_at w a); discriminate. Qed.

Lemma never_exits_with_tbl {A} (r : A * list Z) : never_exits (with_tbl r).
Proof. intros s s'. discriminate. Qed.

Lemma never_exits_out_of_fuel {A} : never_exits (@out_of_fuel A).
Proof. intros s s'. discriminate. Qed.

Lemma never_exits_if {A} (b : bool) (m1 m2 : M A) :
  never_exits m1 -> never_exits m2 -> never_exits (if b then m1 else m2).
Proof. destruct b; auto. Qed.

Lemma never_exits_sigsetjmp {A} c (direct resumed : M A) :
  never_exits direct -> never_exits resumed ->
  never_exits (sigsetjmp c direct resumed).
Proof.
  intros Hd Hr s s'. unfold sigsetjmp, resume. specialize (Hd (set_jump c s)).
  destruct (direct (set_jump c s)) as [a s1 | s1 | s1 |]; try discriminate.
  - destruct (checkpoint_eqb _ _); [apply Hr | discriminate].
  - exfalso. apply (Hd s1). reflexivity.
Qed.

(** Closes a goal [never_exits m] over [bind], [if] and the primitives. *)
Ltac never_exits_steps :=
  repeat first
    [ apply never_exits_bind; intros
    | apply never_exits_if
    | apply never_exits_ret
    | apply never_exits_fprintf
    | apply never_exits_load8
    | apply never_exits_load32
    | apply never_exits_with_tbl
    | apply never_exits_out_of_fuel ].

Lemma never_exits_print_chars w arg_val length : forall n i,
  never_exits (print_chars w n i arg_val length).
Proof.
  induction n as [| n IH]; intros i; cbn [print_chars]; never_exits_steps.
  apply IH.
Qed.

Lemma never_exits_is_string_print w arg_val fuel :
  never_exits (Intercept.is_string_print w fuel arg_val).
Proof.
  unfold Intercept.is_string_print.
  apply never_exits_sigsetjmp; [| apply never_exits_ret].
  apply never_exits_if; [apply never_exits_ret |].
  generalize 0. induction fuel as [| fuel IH]; intros len;
    cbn [Intercept.is_string_print_loop]; never_exits_steps. apply IH.
Qed.

Lemma never_exits_print_string w fuel p :
  never_exits (Intercept.print_string w fuel p).
Proof.
  unfold Intercept.print_string.
  apply never_exits_bind; [apply never_exits_is_string_print |].
  intros [len |]; never_exits_steps; try apply never_exits_print_chars.
Qed.

Lemma never_exits_try_elements w arg_val : forall n i,
  never_exits (Intercept.try_elements w n i arg_val).
Proof.
  induction n as [| n IH]; intros i; cbn [Intercept.try_elements];
    never_exits_steps. apply IH.
Qed.

Lemma never_exits_print_string_array_loop w fuel arg_val : forall n i,
  never_exits
    (print_string_array_loop w (Intercept.print_string w fuel) n i arg_val).
Proof.
  induction n as [| n IH]; intros i; cbn [print_string_array_loop].
  - never_exits_steps.
  - apply never_exits_bind; [apply never_exits_load32 | intros p].
    apply never_exits_if; [apply never_exits_ret |].
    apply never_exits_bind; [never_exits_steps | intros _].
    apply never_exits_bind; [apply never_exits_print_string | intros _].
    apply IH.
Qed.

Lemma never_exits_print_string_array w fuel p :
  never_exits (Intercept.print_string_array w fuel p).
Proof.
  unfold Intercept.print_string_array.
  apply never_exits_sigsetjmp; [| apply never_exits_fprintf].
  apply never_exits_if; [apply never_exits_fprintf |].
  apply never_exits_bind; [apply never_exits_try_elements | intros _].
  apply never_exits_bind; [apply never_exits_fprintf | intros _].
  apply never_exits_bind; [apply never_exits_print_string_array_loop | intros i].
  never_exits_steps.
Qed.

Lemma never_exits_print_arguments w fuel function ebp :
  never_exits (Intercept.print_arguments w fuel function ebp).
Proof.
  unfold Intercept.print_arguments, print_arguments.
  apply never_exits_bind; [| intros; never_exits_steps].
  generalize 0. induction (Z.to_nat (ARGS_MAX_NUM w)) as [| n IH]; intros index;
    cbn [print_arguments_loop]; [apply never_exits_ret |].
  apply never_exits_if; [| apply never_exits_ret].
  apply never_exits_bind; [never_exits_steps | intros _].
  apply never_exits_bind; [| intros _; apply IH].
  unfold print_argument, load64. destruct (type (arg_at function index));
    repeat first
      [ apply never_exits_print_string
      | apply never_exits_print_string_array
      | apply never_exits_bind; intros
      | apply never_exits_if
      | apply never_exits_fprintf
      | apply never_exits_ret
      | apply never_exits_load8
      | apply never_exits_load32 ].
Qed.

Lemma never_exits_traceback_loop w fuel : forall steps ebp,
  never_exits (Intercept.traceback_loop w fuel steps ebp).
Proof.
  induction steps as [| steps IH]; intros ebp; cbn [Intercept.traceback_loop].
  - apply never_exits_out_of_fuel.
  - apply never_exits_sigsetjmp; [| apply never_exits_ret].
    apply never_exits_if; [apply never_exits_ret |].
    apply never_exits_bind; [apply never_exits_load32 | intros old_ebp].
    apply never_exits_bind; [apply never_exits_load32 | intros ra].
    apply never_exits_if; [apply never_exits_fprintf |].
    apply never_exits_bind; [apply never_exits_with_tbl | intros index].
    apply never_exits_bind; [| intros _; apply IH].
    apply never_exits_if; [apply never_exits_fprintf |].
    apply never_exits_bind; [apply never_exits_with_tbl | intros f].
    apply never_exits_bind; [apply never_exits_load32 | intros operand].
    apply never_exits_bind; [apply never_exits_with_tbl | intros _].
    apply never_exits_bind; [apply never_exits_fprintf | intros _].
    apply never_exits_bind; [apply never_exits_print_arguments | intros _].
    apply never_exits_fprintf.
Qed.


